(** * The notes backend (src/app.py): a shallow embedding and its contracts

    The Flask handlers of [app.py] are embedded as computations in a small
    state-and-exception monad.  The state holds what the handlers reach
    through [psycopg2] and through Flask's [session]: the committed tables,
    the working copy of the open transaction, the two SERIAL sequences, the
    number of connections that are open, and the session dictionary of the
    client whose request is being served.  Backend failures (a lost
    connection, a failed statement, commit or rollback) are scripted by the
    [faults] field, one entry per backend call.  What [psycopg2] does with
    the parameters of a statement before it is sent, and what the backend
    does with the literals it receives, is modelled value by value. *)

From stdpp Require Import gmap strings list sorting.
From Stdlib Require Import ZArith String.

Open Scope string_scope.
Open Scope Z_scope.

(** ** Values *)

(** What [request.get_json()] returns and what [jsonify] takes.  JSON numbers
    are the integral ones; the handlers only test a number for zero.  A
    Python [str] is the string of the bytes of its UTF-8 encoding. *)
#[warnings="-register-all"]
Inductive json :=
| JNull
| JBool (b : bool)
| JNum (n : Z)
| JStr (s : string)
| JArr (l : list json)
| JObj (m : gmap string json).

(** Python truth value, as [not data] computes it. *)
Definition truthy (v : json) : bool :=
  match v with
  | JNull => false
  | JBool b => b
  | JNum n => negb (n =? 0)
  | JStr s => negb (String.eqb s EmptyString)
  | JArr l => match l with [] => false | _ :: _ => true end
  | JObj m => negb (Nat.eqb (size m) 0)
  end.

Arguments truthy : simpl never.

(** [k in s] on two Python strings. *)
Fixpoint is_substring (k s : string) : bool :=
  String.prefix k s ||
  match s with
  | EmptyString => false
  | String _ s' => is_substring k s'
  end.

Definition is_str (k : string) (v : json) : bool :=
  match v with
  | JStr s => String.eqb s k
  | _ => false
  end.

(** Exceptions a handler can see.  [Psycopg2Error] stands for the classes
    under [psycopg2.Error] (OperationalError, InterfaceError,
    ProgrammingError, IntegrityError, ...): no handler tells them apart, the
    only [except] clause of app.py catches [Exception]. *)
Inductive exn :=
| KeyError (key : string)
| TypeError (msg : string)
| AttributeError (msg : string)
| ValueError (msg : string)
| HTTPException (code : Z)
| Psycopg2Error (msg : string).

(** [str(e)]. *)
Definition str (e : exn) : string :=
  match e with
  | KeyError k => "'" ++ k ++ "'"
  | TypeError m => m
  | AttributeError m => m
  | ValueError m => m
  | HTTPException _ => "HTTPException"
  | Psycopg2Error m => m
  end.

Inductive outcome (A : Type) :=
| Ok (a : A)
| Raise (e : exn).
Arguments Ok {A} a.
Arguments Raise {A} e.

(** A Flask response: [jsonify(v)] is status 200, [(jsonify(v), c)] status
    [c]. *)
Record response := mkResponse { status : Z; body : json }.

Definition jsonify (v : json) : response := mkResponse 200 v.
Definition with_status (r : response) (c : Z) : response := mkResponse c (body r).

Definition message (m : string) : json := JObj {[ "message" := JStr m ]}.
Definition error (m : string) : json := JObj {[ "error" := JStr m ]}.

(** ** Models (structure only) *)

Record User := mkUser {
  u_id : Z;
  u_username : string;
  u_email : string;
  u_password_hash : string }.

Record Note := mkNote {
  n_id : Z;
  n_title : string;
  n_content : string;
  n_user_id : Z }.

(** ** The world a request runs in *)

Record tables := mkTables { users : list User; notes : list Note }.

Record state := mkState {
  committed : tables;            (* what a new connection sees *)
  txn : tables;                  (* working copy of the open connection *)
  users_id_seq : Z;              (* last value of users.id's sequence *)
  notes_id_seq : Z;              (* last value of notes.id's sequence *)
  open_conns : nat;              (* connections opened and not closed *)
  faults : list (option string); (* backend script: [Some m] fails a call *)
  session : gmap string Z }.     (* Flask's session of this client *)

Definition set_committed (t : tables) (s : state) : state :=
  mkState t (txn s) (users_id_seq s) (notes_id_seq s) (open_conns s) (faults s) (session s).
Definition set_txn (t : tables) (s : state) : state :=
  mkState (committed s) t (users_id_seq s) (notes_id_seq s) (open_conns s) (faults s) (session s).
Definition set_users_id_seq (n : Z) (s : state) : state :=
  mkState (committed s) (txn s) n (notes_id_seq s) (open_conns s) (faults s) (session s).
Definition set_notes_id_seq (n : Z) (s : state) : state :=
  mkState (committed s) (txn s) (users_id_seq s) n (open_conns s) (faults s) (session s).
Definition set_open_conns (n : nat) (s : state) : state :=
  mkState (committed s) (txn s) (users_id_seq s) (notes_id_seq s) n (faults s) (session s).
Definition set_faults (f : list (option string)) (s : state) : state :=
  mkState (committed s) (txn s) (users_id_seq s) (notes_id_seq s) (open_conns s) f (session s).
Definition set_session (m : gmap string Z) (s : state) : state :=
  mkState (committed s) (txn s) (users_id_seq s) (notes_id_seq s) (open_conns s) (faults s) m.

Definition set_users (l : list User) (t : tables) : tables := mkTables l (notes t).
Definition set_notes (l : list Note) (t : tables) : tables := mkTables (users t) l.

(** ** The handler monad: state and exceptions *)

Definition M (A : Type) : Type := state → outcome A * state.

Definition ret {A} (a : A) : M A := λ s, (Ok a, s).
Definition raise {A} (e : exn) : M A := λ s, (Raise e, s).
Definition bind {A B} (m : M A) (k : A → M B) : M B := λ s,
  match m s with
  | (Ok a, s') => k a s'
  | (Raise e, s') => (Raise e, s')
  end.

Notation "'let!' x ':=' m 'in' k" := (bind m (λ x, k))
  (at level 10, x name, m at level 100, k at level 200).
Notation "m '>>' k" := (bind m (λ _, k))
  (at level 100, k at level 200, right associativity).

Definition lift {A} (o : outcome A) : M A := λ s, (o, s).

(** [try: body finally: fin].  The [finally] block runs on both exits; when
    it raises, its exception replaces the body's result. *)
Definition try_finally {A} (body : M A) (fin : M unit) : M A := λ s,
  match body s with
  | (r, s1) =>
      match fin s1 with
      | (Ok _, s2) => (r, s2)
      | (Raise e, s2) => (Raise e, s2)
      end
  end.

(** [try: body except Exception as e: handler(e)]. *)
Definition try_except {A} (body : M A) (handler : exn → M A) : M A := λ s,
  match body s with
  | (Ok a, s1) => (Ok a, s1)
  | (Raise e, s1) => handler e s1
  end.

(** ** Flask's session *)

Definition session_contains (k : string) : M bool := λ s,
  (Ok (bool_decide (is_Some (session s !! k))), s).

Definition session_get (k : string) : M Z := λ s,
  match session s !! k with
  | Some v => (Ok v, s)
  | None => (Raise (KeyError k), s)
  end.

Definition session_set (k : string) (v : Z) : M unit := λ s,
  (Ok tt, set_session (<[k := v]> (session s)) s).

Definition session_clear : M unit := λ s, (Ok tt, set_session ∅ s).

(** ** Python operations on the request body *)

(** [data[k]]. *)
Definition subscript (data : json) (k : string) : M json :=
  match data with
  | JObj m =>
      match m !! k with
      | Some v => ret v
      | None => raise (KeyError k)
      end
  | JArr _ => raise (TypeError "list indices must be integers or slices, not str")
  | JStr _ => raise (TypeError "string indices must be integers")
  | JNull => raise (TypeError "'NoneType' object is not subscriptable")
  | JBool _ => raise (TypeError "'bool' object is not subscriptable")
  | JNum _ => raise (TypeError "'int' object is not subscriptable")
  end.

(** [k in data]. *)
Definition contains (k : string) (data : json) : M bool :=
  match data with
  | JObj m => ret (bool_decide (is_Some (m !! k)))
  | JArr l => ret (existsb (is_str k) l)
  | JStr s => ret (is_substring k s)
  | JNull => raise (TypeError "argument of type 'NoneType' is not iterable")
  | JBool _ => raise (TypeError "argument of type 'bool' is not iterable")
  | JNum _ => raise (TypeError "argument of type 'int' is not iterable")
  end.

(** [all(k in data for k in ks)]: stops at the first key that is absent. *)
Fixpoint all_in (ks : list string) (data : json) : M bool :=
  match ks with
  | [] => ret true
  | k :: ks' =>
      let! b := contains k data in
      if b then all_in ks' data else ret false
  end.

(** ** The backend, as [psycopg2] presents it

    A connection works on a private copy of the tables ([txn]); [commit]
    publishes it and [close] drops what was not committed.  The calls that
    talk to the server ([connect], [execute], [commit], [rollback]) take the
    next entry of the [faults] script and raise when it says so. *)

Definition backend_call : M unit := λ s,
  match faults s with
  | [] => (Ok tt, s)
  | None :: f => (Ok tt, set_faults f s)
  | Some m :: f => (Raise (Psycopg2Error m), set_faults f s)
  end.

(** [psycopg2.connect(DATABASE_URL)]. *)
Definition get_db : M unit :=
  backend_call >>
  λ s, (Ok tt, set_open_conns (S (open_conns s)) (set_txn (committed s) s)).

(** [conn.cursor()] and [cur.close()] hold no state of their own. *)
Definition cursor : M unit := ret tt.
Definition cur_close : M unit := ret tt.

Definition conn_commit : M unit :=
  backend_call >>
  λ s, (Ok tt, set_committed (txn s) s).

(** [conn.rollback()]: a round trip as well; on a connection the server has
    closed it raises. *)
Definition conn_rollback : M unit :=
  backend_call >>
  λ s, (Ok tt, set_txn (committed s) s).

Definition conn_close : M unit := λ s,
  (Ok tt, set_open_conns (Nat.pred (open_conns s)) (set_txn (committed s) s)).

(** [cur.execute(sql, params)] once the parameters are adapted: one round
    trip, then the statement. *)
Definition execute {A} (stmt : M A) : M A := backend_call >> stmt.

(** [cur.fetchone()] on the rows the statement produced. *)
Definition fetchone {A} (rows : list A) : option A := head rows.

(** *** The parameters of a statement

    [cur.execute] first adapts each Python parameter to an SQL literal, on
    the client, before anything is sent: [None] is NULL, a [str] is a quoted
    literal (refused when it contains the NUL character), the empty list is
    the quoted literal ['{}'], a [bool], a number and a non-empty list
    ([ARRAY[...]], adapted element by element) are typed literals, and a
    [dict] has no adapter. *)

Fixpoint has_nul (s : string) : bool :=
  match s with
  | EmptyString => false
  | String c s' => Ascii.eqb c Ascii.zero || has_nul s'
  end.

Inductive literal :=
| LNull
| LText (s : string)
| LTyped (v : json).

Definition nul_in_literal : exn :=
  ValueError "A string literal cannot contain NUL (0x00) characters.".
Definition cannot_adapt_dict : exn :=
  Psycopg2Error "can't adapt type 'dict'".

(** The exception the adaptation of [v] raises, if it raises. *)
Fixpoint adapt_error (v : json) : option exn :=
  match v with
  | JStr s => if has_nul s then Some nul_in_literal else None
  | JObj _ => Some cannot_adapt_dict
  | JArr l =>
      (fix first (l : list json) : option exn :=
         match l with
         | [] => None
         | x :: l' =>
             match adapt_error x with
             | Some e => Some e
             | None => first l'
             end
         end) l
  | JNull | JBool _ | JNum _ => None
  end.

Definition adapt_lit (v : json) : outcome literal :=
  match adapt_error v with
  | Some e => Raise e
  | None =>
      Ok (match v with
          | JNull => LNull
          | JStr s => LText s
          | JArr [] => LText "{}"
          | _ => LTyped v
          end)
  end.

Arguments adapt_lit : simpl never.

Definition adapt (v : json) : M literal := lift (adapt_lit v).

(** The same for a parameter that is a [str] by construction. *)
Definition adapt_str (s : string) : M string :=
  if has_nul s then raise nul_in_literal else ret s.

(** A literal compared with a TEXT column: a quoted literal is read as
    text, NULL is equal to nothing, and the backend has no equality between
    TEXT and a typed literal. *)
Definition compare_text (l : literal) : outcome (option string) :=
  match l with
  | LNull => Ok None
  | LText s => Ok (Some s)
  | LTyped _ => Raise (Psycopg2Error "operator does not exist")
  end.

Definition bind_compared (l : literal) : M (option string) :=
  lift (compare_text l).

Definition text_eq (col : string) (p : option string) : bool :=
  match p with
  | Some s => String.eqb col s
  | None => false
  end.

(** A literal stored into a TEXT column.  The text the backend's assignment
    cast makes of a typed literal is the parameter [coerce_text] ([None]:
    the backend refuses the value). *)
Definition store_text (coerce_text : json → option string) (l : literal)
  : outcome (option string) :=
  match l with
  | LNull => Ok None
  | LText s => Ok (Some s)
  | LTyped v =>
      match coerce_text v with
      | Some s => Ok (Some s)
      | None => Raise (Psycopg2Error "cannot be stored as text")
      end
  end.

Definition bind_stored (coerce_text : json → option string) (l : literal)
  : M (option string) :=
  lift (store_text coerce_text l).

Definition not_null_violation {A} : M A :=
  raise (Psycopg2Error "null value violates not-null constraint").
Definition unique_violation {A} : M A :=
  raise (Psycopg2Error "duplicate key value violates unique constraint").
Definition foreign_key_violation {A} : M A :=
  raise (Psycopg2Error "insert violates foreign key constraint").

(** [nextval] of a SERIAL column: the sequence of an [integer] column stops
    at its largest value; a rollback does not give a value back. *)
Definition serial_max : Z := 2147483647.

Definition sequence_exhausted : exn :=
  Psycopg2Error "nextval: reached maximum value of sequence".

Definition nextval_users : M Z := λ s,
  if users_id_seq s <? serial_max
  then (Ok (users_id_seq s + 1), set_users_id_seq (users_id_seq s + 1) s)
  else (Raise sequence_exhausted, s).
Definition nextval_notes : M Z := λ s,
  if notes_id_seq s <? serial_max
  then (Ok (notes_id_seq s + 1), set_notes_id_seq (notes_id_seq s + 1) s)
  else (Raise sequence_exhausted, s).

Definition get_txn : M tables := λ s, (Ok (txn s), s).
Definition put_txn (t : tables) : M unit := λ s, (Ok tt, set_txn t s).

(** *** The statements of app.py *)

(** [SELECT id FROM users WHERE email=%s OR username=%s;] *)
Definition select_user_ids (email username : json) : M (list Z) :=
  let! email := adapt email in
  let! username := adapt username in
  execute (
    let! e := bind_compared email in
    let! u := bind_compared username in
    let! t := get_txn in
    ret (map u_id
           (filter (λ r, text_eq (u_email r) e || text_eq (u_username r) u = true)
                   (users t)))).

(** [INSERT INTO users (username, email, password_hash) VALUES (%s, %s, %s);]
    under the schema of [init_db]: id SERIAL PRIMARY KEY, username and email
    NOT NULL UNIQUE. *)
Definition insert_user (coerce_text : json → option string)
    (username email : json) (password_hash : string) : M unit :=
  let! username := adapt username in
  let! email := adapt email in
  let! password_hash := adapt_str password_hash in
  execute (
    let! u := bind_stored coerce_text username in
    let! e := bind_stored coerce_text email in
    let! i := nextval_users in
    let! t := get_txn in
    match u, e with
    | Some u, Some e =>
        if existsb (λ r, (u_id r =? i) || String.eqb (u_username r) u
                         || String.eqb (u_email r) e) (users t)
        then unique_violation
        else put_txn (set_users (users t ++ [mkUser i u e password_hash]) t)
    | _, _ => not_null_violation
    end).

(** [SELECT id, username, email, password_hash FROM users WHERE email=%s;] *)
Definition select_users_by_email (email : json) : M (list User) :=
  let! email := adapt email in
  execute (
    let! e := bind_compared email in
    let! t := get_txn in
    ret (filter (λ r, text_eq (u_email r) e = true) (users t))).

(** [INSERT INTO notes (title, content, user_id) VALUES (%s, %s, %s);]
    under the schema of [init_db]: id SERIAL PRIMARY KEY, title and content
    NOT NULL, user_id REFERENCES users(id). *)
Definition insert_note (coerce_text : json → option string)
    (title content : json) (user_id : Z) : M unit :=
  let! title := adapt title in
  let! content := adapt content in
  execute (
    let! ti := bind_stored coerce_text title in
    let! co := bind_stored coerce_text content in
    let! i := nextval_notes in
    let! t := get_txn in
    match ti, co with
    | Some ti, Some co =>
        if existsb (λ r, n_id r =? i) (notes t) then unique_violation
        else if existsb (λ r, u_id r =? user_id) (users t)
        then put_txn (set_notes (notes t ++ [mkNote i ti co user_id]) t)
        else foreign_key_violation
    | _, _ => not_null_violation
    end).

(** [ORDER BY id DESC]. *)
Definition id_desc : relation Note := λ a b, n_id b ≤ n_id a.

#[global] Instance id_desc_dec : RelDecision id_desc.
Proof. intros a b. unfold id_desc. apply _. Defined.

(** [SELECT id, title, content, user_id FROM notes WHERE user_id=%s
     ORDER BY id DESC;] *)
Definition select_notes_of (user_id : Z) : M (list Note) :=
  execute (
    let! t := get_txn in
    ret (merge_sort id_desc
           (filter (λ r, n_user_id r = user_id) (notes t)))).

Definition targets (note_id user_id : Z) (r : Note) : bool :=
  (n_id r =? note_id) && (n_user_id r =? user_id).

(** [UPDATE notes SET title=%s, content=%s WHERE id=%s AND user_id=%s
     RETURNING id;] *)
Definition update_notes (coerce_text : json → option string)
    (title content : json) (note_id user_id : Z) : M (list Z) :=
  let! title := adapt title in
  let! content := adapt content in
  execute (
    let! ti := bind_stored coerce_text title in
    let! co := bind_stored coerce_text content in
    let! t := get_txn in
    let hit := filter (λ r, targets note_id user_id r = true) (notes t) in
    match hit, ti, co with
    | [], _, _ => ret []
    | _ :: _, Some ti, Some co =>
        put_txn (set_notes
                   (map (λ r, if targets note_id user_id r
                              then mkNote (n_id r) ti co (n_user_id r) else r)
                        (notes t)) t) >>
        ret (map n_id hit)
    | _ :: _, _, _ => not_null_violation
    end).

(** [DELETE FROM notes WHERE id=%s AND user_id=%s RETURNING id;] *)
Definition delete_notes (note_id user_id : Z) : M (list Z) :=
  execute (
    let! t := get_txn in
    put_txn (set_notes
               (filter (λ r, targets note_id user_id r = false) (notes t)) t) >>
    ret (map n_id (filter (λ r, targets note_id user_id r = true) (notes t)))).

(** [SELECT id, title, content FROM notes WHERE id=%s AND user_id=%s;] *)
Definition select_note (note_id user_id : Z) : M (list (Z * string * string)) :=
  execute (
    let! t := get_txn in
    ret (map (λ r, (n_id r, n_title r, n_content r))
           (filter (λ r, targets note_id user_id r = true) (notes t)))).

(** [SELECT tablename FROM pg_tables WHERE schemaname='public';].  The
    statement reads the catalog, which is no part of the state: [names] is
    what the catalog holds for the public schema, in the order the backend
    returns it (the statement has no ORDER BY). *)
Definition select_tablenames (names : list string) : M (list string) :=
  execute (ret names).

(** ** The handlers *)

Definition unauthorized : response :=
  with_status (jsonify (error "Unauthorized")) 401.
Definition not_found : response :=
  with_status (jsonify (error "Not found")) 404.
Definition invalid_input : response :=
  with_status (jsonify (error "Invalid input")) 400.
Definition user_already_exists : response :=
  with_status (jsonify (error "User already exists")) 400.
Definition invalid_credentials : response :=
  with_status (jsonify (error "Invalid credentials")) 401.

Definition note_json (i : Z) (title content : string) : json :=
  JObj {[ "id" := JNum i; "title" := JStr title; "content" := JStr content ]}.

(** werkzeug hashes [password.encode()]: only a [str] gets that far. *)
Definition encode (v : json) : M string :=
  match v with
  | JStr s => ret s
  | _ => raise (AttributeError "object has no attribute 'encode'")
  end.

Section Handlers.

(** werkzeug's hasher; the first argument of [generate_password_hash] is
    the salt it draws for the call. *)
Variable generate_password_hash : string → string → string.
Variable check_password_hash : string → string → bool.
(** The backend's conversion of a non-text parameter stored into a TEXT
    column, see [bind_stored]. *)
Variable coerce_text : json → option string.

(** [POST /register].  [data] is what [request.get_json()] does. *)
Definition register (data : outcome json) (salt : string) : M response :=
  let! data := lift data in
  let! complete :=
    (if truthy data then all_in ["username"; "email"; "password"] data
     else ret false) in
  if negb complete then ret invalid_input
  else
    let! password := subscript data "password" in
    let! password := encode password in
    let password_hash := generate_password_hash salt password in
    get_db >>
    cursor >>
    try_finally
      (try_except
         (let! email := subscript data "email" in
          let! username := subscript data "username" in
          let! rows := select_user_ids email username in
          match fetchone rows with
          | Some _ => ret user_already_exists
          | None =>
              let! username := subscript data "username" in
              let! email := subscript data "email" in
              insert_user coerce_text username email password_hash >>
              conn_commit >>
              ret (with_status (jsonify (message "registered")) 201)
          end)
         (λ e,
            conn_rollback >>
            ret (with_status (jsonify (error (str e))) 500)))
      (cur_close >> conn_close).

(** [POST /login]. *)
Definition login (data : outcome json) : M response :=
  let! data := lift data in
  let! incomplete :=
    (if negb (truthy data) then ret true
     else
       let! has_email := contains "email" data in
       if negb has_email then ret true
       else
         let! has_password := contains "password" data in
         ret (negb has_password)) in
  if incomplete then ret invalid_input
  else
    get_db >>
    cursor >>
    try_finally
      (let! email := subscript data "email" in
       let! rows := select_users_by_email email in
       match fetchone rows with
       | None => ret invalid_credentials
       | Some row =>
           let! password := subscript data "password" in
           let! password := encode password in
           if negb (check_password_hash (u_password_hash row) password)
           then ret invalid_credentials
           else
             session_set "user_id" (u_id row) >>
             ret (jsonify (message "logged in"))
       end)
      (cur_close >> conn_close).

(** [POST /logout]. *)
Definition logout : M response :=
  session_clear >>
  ret (jsonify (message "logged out")).

(** [POST /notes]. *)
Definition create_note (data : outcome json) : M response :=
  let! logged_in := session_contains "user_id" in
  if negb logged_in then ret unauthorized
  else
    let! data := lift data in
    get_db >>
    cursor >>
    try_finally
      (let! title := subscript data "title" in
       let! content := subscript data "content" in
       let! user_id := session_get "user_id" in
       insert_note coerce_text title content user_id >>
       conn_commit >>
       ret (with_status (jsonify (message "note created")) 201))
      (cur_close >> conn_close).

(** [GET /notes]. *)
Definition get_notes : M response :=
  let! logged_in := session_contains "user_id" in
  if negb logged_in then ret (jsonify (JArr []))
  else
    get_db >>
    cursor >>
    try_finally
      (let! user_id := session_get "user_id" in
       let! rows := select_notes_of user_id in
       let notes := rows in
       ret (jsonify
              (JArr (map (λ n, note_json (n_id n) (n_title n) (n_content n))
                         notes))))
      (cur_close >> conn_close).

(** [PUT /notes/<int:note_id>]. *)
Definition update_note (note_id : Z) (data : outcome json) : M response :=
  let! logged_in := session_contains "user_id" in
  if negb logged_in then ret unauthorized
  else
    let! data := lift data in
    get_db >>
    cursor >>
    try_finally
      (let! title := subscript data "title" in
       let! content := subscript data "content" in
       let! user_id := session_get "user_id" in
       let! rows := update_notes coerce_text title content note_id user_id in
       match fetchone rows with
       | None => ret not_found
       | Some _ =>
           conn_commit >>
           ret (jsonify (message "updated"))
       end)
      (cur_close >> conn_close).

(** [DELETE /notes/<int:note_id>]. *)
Definition delete_note (note_id : Z) : M response :=
  let! logged_in := session_contains "user_id" in
  if negb logged_in then ret unauthorized
  else
    get_db >>
    cursor >>
    try_finally
      (let! user_id := session_get "user_id" in
       let! rows := delete_notes note_id user_id in
       match fetchone rows with
       | None => ret not_found
       | Some _ =>
           conn_commit >>
           ret (jsonify (message "deleted"))
       end)
      (cur_close >> conn_close).

(** [GET /notes/<int:note_id>]. *)
Definition get_single_note (note_id : Z) : M response :=
  let! logged_in := session_contains "user_id" in
  if negb logged_in then ret unauthorized
  else
    get_db >>
    cursor >>
    try_finally
      (let! user_id := session_get "user_id" in
       let! rows := select_note note_id user_id in
       match fetchone rows with
       | None => ret not_found
       | Some (i, title, content) => ret (jsonify (note_json i title content))
       end)
      (cur_close >> conn_close).

(** [GET /]. *)
Definition health : M response :=
  ret (jsonify (JObj {[ "status" := JStr "ok" ]})).

(** [GET /list-tables]: no [try] around the statement.  [names] is what the
    catalog returns, see [select_tablenames]. *)
Definition list_tables (names : list string) : M response :=
  get_db >>
  cursor >>
  let! tables := select_tablenames names in
  cur_close >>
  conn_close >>
  ret (jsonify (JArr (map (λ t, JArr [JStr t]) tables))).

End Handlers.

(** ** Vocabulary of the statements *)

(** No backend failure is scheduled. *)
Definition quiet (s : state) : Prop := faults s = [].

(** The script of a request whose connection is made, whose first [k]
    statements and commits go through and whose next one fails with [msg];
    [tl] is what the calls after the failure meet. *)
Definition fails_after (k : nat) (msg : string) (tl : list (option string))
  : list (option string) :=
  None :: replicate k None ++ Some msg :: tl.

(** The request carries the session of user [u] / carries no session. *)
Definition logged_in_as (u : Z) (s : state) : Prop :=
  session s !! "user_id" = Some u.
Definition anonymous (s : state) : Prop :=
  session s !! "user_id" = None.

(** The caller [u] owns a stored note with identifier [note_id]. *)
Definition owns (u note_id : Z) (s : state) : Prop :=
  ∃ r, r ∈ notes (committed s) ∧ n_id r = note_id ∧ n_user_id r = u.

(** A user row with identifier [u] is stored. *)
Definition user_exists (u : Z) (s : state) : Prop :=
  ∃ r, r ∈ users (committed s) ∧ u_id r = u.

(** A value the driver adapts and the backend takes for a TEXT column, NULL
    included. *)
Definition storable (coerce_text : json → option string) (v : json) : Prop :=
  ∃ l x, adapt_lit v = Ok l ∧ store_text coerce_text l = Ok x.

(** A value the driver adapts and the backend compares with a TEXT column,
    as the text [t] ([None]: as NULL). *)
Definition compared_as (v : json) (t : option string) : Prop :=
  ∃ l, adapt_lit v = Ok l ∧ compare_text l = Ok t.

(** A string the driver takes as a parameter. *)
Definition plain (s : string) : Prop := has_nul s = false.

(** The body is a JSON object that has both fields of a note. *)
Definition has_note_fields (data : outcome json) : Prop :=
  ∃ m, data = Ok (JObj m) ∧ is_Some (m !! "title") ∧ is_Some (m !! "content").

(** The remaining success responses. *)
Definition registered : response :=
  with_status (jsonify (message "registered")) 201.
Definition logged_in : response := jsonify (message "logged in").
Definition note_created : response :=
  with_status (jsonify (message "note created")) 201.

(** The rows the WHERE clauses select. *)
Definition hits (note_id u : Z) (l : list Note) : list Note :=
  filter (λ r, targets note_id u r = true) l.
Definition misses (note_id u : Z) (l : list Note) : list Note :=
  filter (λ r, targets note_id u r = false) l.
Definition taken (email username : string) (l : list User) : list User :=
  filter (λ r, String.eqb (u_email r) email
               || String.eqb (u_username r) username = true) l.
Definition with_email (email : string) (l : list User) : list User :=
  filter (λ r, String.eqb (u_email r) email = true) l.
Arguments hits : simpl never.
Arguments misses : simpl never.
Arguments taken : simpl never.
Arguments with_email : simpl never.

(** The rows the statement of [get_notes] returns for owner [u], and the
    JSON object made of one of them. *)
Definition owned_desc (u : Z) (l : list Note) : list Note :=
  merge_sort id_desc (filter (λ r, n_user_id r = u) l).
Arguments owned_desc : simpl never.

Definition note_row (n : Note) : json :=
  note_json (n_id n) (n_title n) (n_content n).

(** The JSON object the specification shows for a note:
    [{"id":1,"title":"T1","content":"C1"}]. *)
Definition note_object (n : Note) : json :=
  JObj {[ "id" := JNum (n_id n);
          "title" := JStr (n_title n);
          "content" := JStr (n_content n) ]}.

(** The answer of the [except] clause of [register] to an exception whose
    text is [msg]. *)
Definition server_error (msg : string) : response :=
  mkResponse 500 (JObj {[ "error" := JStr msg ]}).

(** Primary key of [notes] against the sequence value [n]: identifiers are
    distinct and were all drawn from the sequence. *)
Definition keyed (n : Z) (l : list Note) : Prop :=
  NoDup (map n_id l) ∧ ∀ r, r ∈ l → n_id r ≤ n.

Definition notes_keyed (s : state) : Prop :=
  keyed (notes_id_seq s) (notes (committed s)).

Definition store_keyed (s : state) : Prop :=
  keyed (notes_id_seq s) (notes (committed s)) ∧
  keyed (notes_id_seq s) (notes (txn s)).

(** [m] takes every state to an [R]-related one, whatever it returns.  The
    two relations of interest: the primary key survives, and the number of
    open connections is what it was. *)
Definition keeps (R : relation state) {A} (m : M A) : Prop :=
  ∀ s, R s (m s).2.

Definition keyed_to : relation state :=
  λ s s', store_keyed s → store_keyed s'.
Definition same_conns : relation state :=
  λ s s', open_conns s' = open_conns s.

(** The state [POST /notes] leaves after a quiet, successful run. *)
Definition after_create (s : state) (u : Z) (title content : string) : state :=
  let i := notes_id_seq s + 1 in
  let t := set_notes (notes (committed s) ++ [mkNote i title content u])
                     (committed s) in
  set_notes_id_seq i (set_txn t (set_committed t s)).

(** The store before any request. *)
Definition initial_state : state :=
  mkState (mkTables [] []) (mkTables [] []) 0 0 0 [] ∅.

(** A sample store for the examples: alice owns notes 1 and 2, bob owns
    note 3. *)
Definition sample_tables : tables :=
  mkTables
    [mkUser 1 "alice" "a@x.com" "pw1"; mkUser 2 "bob" "b@x.com" "pw2"]
    [mkNote 1 "T1" "C1" 1; mkNote 2 "T2" "C2" 1; mkNote 3 "T3" "C3" 2].

Definition sample_state (sess : gmap string Z) : state :=
  mkState sample_tables sample_tables 2 3 0 [] sess.

(** Instances of the three parameters for the examples: a hasher that
    stores the password itself, and a backend that rejects every value that
    is not text. *)
Definition plain_hash (salt password : string) : string := password.
Definition plain_check (pwhash password : string) : bool :=
  String.eqb pwhash password.
Definition no_coercion (v : json) : option string := None.

(** *** Vocabulary of the further properties *)

(** The committed tables and both sequences are what they were. *)
Definition same_store : relation state :=
  λ s s', committed s' = committed s ∧
          users_id_seq s' = users_id_seq s ∧
          notes_id_seq s' = notes_id_seq s.

(** The constraints of [users]: id PRIMARY KEY drawn from the sequence,
    username UNIQUE, email UNIQUE. *)
Definition users_keyed (n : Z) (l : list User) : Prop :=
  NoDup (map u_id l) ∧ NoDup (map u_username l) ∧ NoDup (map u_email l) ∧
  ∀ r, r ∈ l → u_id r ≤ n.

Definition users_sound (s : state) : Prop :=
  users_keyed (users_id_seq s) (users (committed s)) ∧
  users_keyed (users_id_seq s) (users (txn s)).

(** [user_id REFERENCES users(id)]: every note has a stored owner. *)
Definition owners_exist (t : tables) : Prop :=
  ∀ r, r ∈ notes t → ∃ w, w ∈ users t ∧ u_id w = n_user_id r.

Definition owners_sound (s : state) : Prop :=
  owners_exist (committed s) ∧ owners_exist (txn s).

Definition users_to : relation state :=
  λ s s', users_sound s → users_sound s'.
Definition owners_to : relation state :=
  λ s s', owners_sound s → owners_sound s'.

(** One constructor per [@app.route] of app.py, with what the request
    brings or meets: the outcome of [request.get_json()], the salt werkzeug
    draws, the [<int:note_id>] of the path, the table names the catalog
    returns. *)
Inductive request :=
| PostRegister (data : outcome json) (salt : string)
| PostLogin (data : outcome json)
| PostLogout
| PostNotes (data : outcome json)
| GetNotes
| PutNote (note_id : Z) (data : outcome json)
| DeleteNote (note_id : Z)
| GetNote (note_id : Z)
| GetHealth
| GetListTables (names : list string).

(** The view function Flask calls for a request. *)
Definition dispatch
    (generate_password_hash : string → string → string)
    (check_password_hash : string → string → bool)
    (coerce_text : json → option string) (r : request) : M response :=
  match r with
  | PostRegister data salt =>
      register generate_password_hash coerce_text data salt
  | PostLogin data => login check_password_hash data
  | PostLogout => logout
  | PostNotes data => create_note coerce_text data
  | GetNotes => get_notes
  | PutNote note_id data => update_note coerce_text note_id data
  | DeleteNote note_id => delete_note note_id
  | GetNote note_id => get_single_note note_id
  | GetHealth => health
  | GetListTables names => list_tables names
  end.

(** The states the server can be in: it starts on the empty store and
    serves requests one after the other; each request comes with the session
    cookie of its client and meets a backend that fails as it pleases. *)
Inductive reachable
    (generate_password_hash : string → string → string)
    (check_password_hash : string → string → bool)
    (coerce_text : json → option string) : state → Prop :=
| reachable_initial :
    reachable generate_password_hash check_password_hash coerce_text
      initial_state
| reachable_served s r sess script :
    reachable generate_password_hash check_password_hash coerce_text s →
    reachable generate_password_hash check_password_hash coerce_text
      (dispatch generate_password_hash check_password_hash coerce_text r
         (set_session sess (set_faults script s))).2.

(** The notes that do not belong to [u]. *)
Definition others (u : Z) (l : list Note) : list Note :=
  filter (λ r, n_user_id r ≠ u) l.
Arguments others : simpl never.

Definition note_updated : response := jsonify (message "updated").
Definition note_deleted : response := jsonify (message "deleted").

(** The row the UPDATE of [update_notes] leaves in place of [r]. *)
Definition retitle (note_id u : Z) (title content : string) (r : Note) : Note :=
  if targets note_id u r
  then mkNote (n_id r) title content (n_user_id r) else r.

(** ** Symbolic execution *)

Ltac unfold_ops :=
  unfold select_user_ids, insert_user, select_users_by_email, insert_note,
    select_notes_of, update_notes, delete_notes, select_note,
    select_tablenames, execute, get_db, conn_commit, conn_rollback,
    conn_close, cursor, cur_close, backend_call, session_contains,
    session_get, session_set, session_clear, get_txn, put_txn,
    nextval_users, nextval_notes, not_null_violation, unique_violation,
    foreign_key_violation, try_finally, try_except, lift, bind, ret, raise.

Lemma adapt_lit_str s : plain s → adapt_lit (JStr s) = Ok (LText s).
Proof. unfold plain, adapt_lit. cbn. by intros ->. Qed.

Lemma adapt_lit_null : adapt_lit JNull = Ok LNull.
Proof. done. Qed.

Ltac run :=
  unfold_ops; unfold adapt, adapt_str, bind_compared, bind_stored, lift;
  cbn -[filter merge_sort];
  repeat (match goal with
          | H : _ !! _ = _ |- _ => rewrite H
          | H : plain ?s |- context [adapt_lit (JStr ?s)] =>
              rewrite (adapt_lit_str s H)
          | H : plain ?s |- context [has_nul ?s] =>
              rewrite (H : has_nul s = false)
          | H : adapt_lit ?v = _ |- context [adapt_lit ?v] => rewrite H
          | H : store_text ?c ?l = _ |- context [store_text ?c ?l] =>
              rewrite H
          | H : compare_text ?l = _ |- context [compare_text ?l] => rewrite H
          | H : truthy ?v = _ |- context [truthy ?v] => rewrite H
          | H : filter ?P ?l = _ |- context [filter ?P ?l] => rewrite H
          | H : existsb ?f ?l = _ |- context [existsb ?f ?l] => rewrite H
          | H : ?a < ?b |- context [?a <? ?b] =>
              rewrite (proj2 (Z.ltb_lt a b) H)
          end;
          cbn -[filter merge_sort]).

(** Open a state into its fields and use up [quiet], [logged_in_as] and
    [anonymous]. *)
Ltac open_state s :=
  unfold quiet, logged_in_as, anonymous, owns in *;
  destruct s as [[cu cn] tx useq nseq oc fs se]; cbn in *; subst.

(** Case analysis on whatever blocks the evaluation: the backend script,
    the shape of the body, a lookup, the verdict of a parameter, a
    constraint check. *)
Ltac split_matches :=
  repeat match goal with
         | H : ?m !! ?k = _ |- context [?m !! ?k] =>
             rewrite H; cbn -[filter]
         | H : hits ?n ?u ?l = [] |- context [filter ?P ?l] =>
             progress change (filter (λ r, targets n u r = true) l)
               with (hits n u l);
             rewrite H; cbn -[filter]
         | |- context [match adapt_lit ?v with _ => _ end] =>
             destruct (adapt_lit v) eqn:?; cbn -[filter]
         | |- context [match store_text ?c ?l with _ => _ end] =>
             destruct (store_text c l) eqn:?; cbn -[filter]
         | |- context [match compare_text ?l with _ => _ end] =>
             destruct (compare_text l) eqn:?; cbn -[filter]
         | |- context [if has_nul ?x then _ else _] =>
             destruct (has_nul x) eqn:?; cbn -[filter]
         | |- context [if ?a <? ?b then _ else _] =>
             let Hlt := fresh "Hlt" in
             destruct (Z.ltb_spec a b) as [Hlt|Hlt]; cbn -[filter]
         | |- context [match ?x with _ => _ end] =>
             is_var x; destruct x; cbn -[filter]
         | |- context [match ?m !! ?k with _ => _ end] =>
             destruct (m !! k) eqn:?; cbn -[filter]
         | |- context [match ?c ?v with _ => _ end] =>
             is_var c; destruct (c v) eqn:?; cbn -[filter]
         | |- context [if existsb ?f ?l then _ else _] =>
             destruct (existsb f l) eqn:?; cbn -[filter]
         end.

(** *** Evaluation with the body and the parameters left abstract *)

Lemma subscript_pure v k s : ∃ o, subscript v k s = (o, s).
Proof.
  unfold subscript, ret, raise. destruct v; eauto. destruct (m !! k); eauto.
Qed.

Lemma contains_pure k v s : ∃ o, contains k v s = (o, s).
Proof. unfold contains, ret, raise. destruct v; eauto. Qed.

Lemma all_in_pure ks v s : ∃ o, all_in ks v s = (o, s).
Proof.
  induction ks as [|k ks IH]; cbn; [unfold ret; eauto|].
  unfold bind. destruct (contains_pure k v s) as [[[|]|e] ->]; eauto.
Qed.

Lemma encode_pure v s : ∃ o, encode v s = (o, s).
Proof. unfold encode, ret, raise. destruct v; eauto. Qed.

(** Run a handler on an opened state: the steps that read the body or a
    parameter are replaced by their outcome, everything else is evaluated
    and split on. *)
Ltac crunch_step :=
  match goal with
  | H : ?m !! ?k = _ |- context [?m !! ?k] =>
      rewrite H; cbn -[filter merge_sort all_in]
  | H : adapt_lit ?v = _ |- context [adapt_lit ?v] =>
      rewrite H; cbn -[filter merge_sort all_in]
  | |- context [subscript ?v ?k ?s] =>
      let o := fresh "o" in
      destruct (subscript_pure v k s) as [o ->];
      destruct o; cbn -[filter merge_sort all_in]
  | |- context [all_in ?ks ?v ?s] =>
      let o := fresh "o" in
      destruct (all_in_pure ks v s) as [o ->];
      destruct o as [[|]|]; cbn -[filter merge_sort all_in]
  | |- context [contains ?k ?v ?s] =>
      let o := fresh "o" in
      destruct (contains_pure k v s) as [o ->];
      destruct o as [[|]|]; cbn -[filter merge_sort all_in]
  | |- context [encode ?v ?s] =>
      let o := fresh "o" in
      destruct (encode_pure v s) as [o ->];
      destruct o; cbn -[filter merge_sort all_in]
  | |- context [match adapt_lit ?v with _ => _ end] =>
      destruct (adapt_lit v) eqn:?; cbn -[filter merge_sort all_in]
  | |- context [match compare_text ?l with _ => _ end] =>
      destruct (compare_text l) as [[?|]|] eqn:?;
      cbn -[filter merge_sort all_in]
  | |- context [match store_text ?c ?l with _ => _ end] =>
      destruct (store_text c l) as [[?|]|] eqn:?;
      cbn -[filter merge_sort all_in]
  | |- context [if has_nul ?x then _ else _] =>
      destruct (has_nul x) eqn:?; cbn -[filter merge_sort all_in]
  | |- context [if ?a <? ?b then _ else _] =>
      let Hlt := fresh "Hlt" in
      destruct (Z.ltb_spec a b) as [Hlt|Hlt]; cbn -[filter merge_sort all_in]
  | |- context [if truthy ?v then _ else _] =>
      destruct (truthy v); cbn -[filter merge_sort all_in]
  | |- context [match ?x with _ => _ end] =>
      is_var x; destruct x; cbn -[filter merge_sort all_in]
  | |- context [match ?m !! ?k with _ => _ end] =>
      destruct (m !! k) eqn:?; cbn -[filter merge_sort all_in]
  | |- context [if existsb ?f ?l then _ else _] =>
      destruct (existsb f l) eqn:?; cbn -[filter merge_sort all_in]
  | |- context [bool_decide (is_Some (?m !! ?k))] =>
      destruct (m !! k) eqn:?; cbn -[filter merge_sort all_in]
  | |- context [match fetchone ?l with _ => _ end] =>
      destruct (fetchone l) eqn:?; cbn -[filter merge_sort all_in]
  | |- context [match filter ?P ?l with _ => _ end] =>
      destruct (filter P l) eqn:?; cbn -[filter merge_sort all_in]
  | |- context [if ?c ?a ?b then _ else _] =>
      is_var c; destruct (c a b) eqn:?;
      cbn -[filter merge_sort all_in]
  end.

Ltac crunch :=
  unfold_ops; unfold adapt, adapt_str, bind_compared, bind_stored, lift;
  cbn -[filter merge_sort all_in];
  repeat crunch_step.

(** The same with the body opened, when the statement speaks of its
    values. *)
Ltac crunch_body :=
  unfold_ops;
  unfold encode, adapt, adapt_str, bind_compared, bind_stored, lift,
    compare_text, store_text;
  cbn -[filter merge_sort all_in];
  repeat first
    [ crunch_step
    | match goal with
      | |- context [match ?c ?v with _ => _ end] =>
          is_var c; destruct (c v) eqn:?; cbn -[filter merge_sort all_in]
      end ].

Lemma filter_none {A} (P : A → Prop) `{∀ x, Decision (P x)} (l : list A) :
  (∀ x, x ∈ l → ¬ P x) → filter P l = [].
Proof.
  induction l as [|a l IH]; intros Hn; [done|].
  rewrite filter_cons_False; [|apply Hn; left].
  apply IH. intros x Hx. apply Hn. by right.
Qed.

Lemma filter_all {A} (P : A → Prop) `{∀ x, Decision (P x)} (l : list A) :
  (∀ x, x ∈ l → P x) → filter P l = l.
Proof.
  induction l as [|a l IH]; intros Hn; [done|].
  rewrite filter_cons_True; [|apply Hn; left].
  f_equal. apply IH. intros x Hx. apply Hn. by right.
Qed.

Lemma targets_spec note_id u r :
  targets note_id u r = true ↔ n_id r = note_id ∧ n_user_id r = u.
Proof. unfold targets. rewrite andb_true_iff, !Z.eqb_eq. done. Qed.

Lemma targets_false note_id u r :
  targets note_id u r = false ↔ ¬ (n_id r = note_id ∧ n_user_id r = u).
Proof. rewrite <- targets_spec. destruct (targets note_id u r); naive_solver. Qed.

Lemma truthy_obj (m : gmap string json) k v :
  m !! k = Some v → truthy (JObj m) = true.
Proof.
  intros Hk. unfold truthy.
  destruct (Nat.eqb_spec (size m) 0) as [E|]; [|done].
  apply map_size_empty_iff in E. subst m. by rewrite lookup_empty in Hk.
Qed.

(** ** C3: listing without a session *)

(** C3.  Without a session [GET /notes] answers 200 with the empty list, and
    touches nothing; every other note operation answers 401 in that
    situation. *)
Theorem anonymous_listing_is_empty
    (coerce_text : json → option string) (s : state)
    (data : outcome json) (note_id : Z) :
  anonymous s →
  get_notes s = (Ok (mkResponse 200 (JArr [])), s) ∧
  create_note coerce_text data s = (Ok unauthorized, s) ∧
  update_note coerce_text note_id data s = (Ok unauthorized, s) ∧
  delete_note note_id s = (Ok unauthorized, s) ∧
  get_single_note note_id s = (Ok unauthorized, s) ∧
  status unauthorized = 401.
Proof.
  intros Ha. unfold anonymous in Ha.
  unfold get_notes, create_note, update_note, delete_note, get_single_note.
  unfold bind, session_contains, ret. rewrite Ha. cbn. done.
Qed.

Lemma anonymous_listing_is_empty_witness :
  anonymous (sample_state ∅) ∧
  get_notes (sample_state ∅) = (Ok (mkResponse 200 (JArr [])), sample_state ∅).
Proof.
  split; [reflexivity|].
  apply (anonymous_listing_is_empty no_coercion (sample_state ∅) (Ok JNull) 1).
  reflexivity.
Defined.

(** ** C8: registration with a missing field *)

(** A registration whose JSON object lacks [username], [email] or
    [password] is answered 400 "Invalid input"; the state is left as it was,
    so no user row is inserted.  The same holds for a null body. *)
Lemma register_rejects_missing_field
    (generate_password_hash : string → string → string)
    (coerce_text : json → option string)
    (s : state) (m : gmap string json) (salt k : string) :
  k ∈ ["username"; "email"; "password"] →
  m !! k = None →
  register generate_password_hash coerce_text (Ok (JObj m)) salt s
    = (Ok invalid_input, s) ∧
  register generate_password_hash coerce_text (Ok JNull) salt s
    = (Ok invalid_input, s) ∧
  status invalid_input = 400.
Proof.
  intros Hk Hm. split; [|done].
  unfold register, lift, bind at 1 2.
  destruct (truthy (JObj m)); [|done].
  assert (all_in ["username"; "email"; "password"] (JObj m) s = (Ok false, s))
    as ->; [|done].
  unfold all_in, contains, bind, ret.
  destruct (m !! "username") eqn:Hu; cbn;
    [|done].
  destruct (m !! "email") eqn:He; cbn; [|done].
  destruct (m !! "password") eqn:Hp; cbn; [|done].
  repeat (apply elem_of_cons in Hk as [->|Hk]; [congruence|]).
  by apply elem_of_nil in Hk.
Qed.

Example register_without_email :
  register plain_hash no_coercion
    (Ok (JObj {[ "username" := JStr "carol"; "password" := JStr "pw" ]}))
    "salt" (sample_state ∅)
  = (Ok invalid_input, sample_state ∅).
Proof.
  refine (proj1 (register_rejects_missing_field plain_hash no_coercion
                   (sample_state ∅) _ "salt" "email" _ _)).
  - right. left.
  - reflexivity.
Qed.

(** C8 (the code at the failing inputs).  A JSON body that is not an object
    has none of the three fields, and is not always answered 400.  On the
    array of the three names every [k in data] is true, so the guard lets
    the body through and [data["password"]] raises [TypeError]; on a non-zero
    number or [true] the guard itself raises, [k in data] being undefined
    there.  In both cases the exception leaves [register]; no row is
    inserted. *)
Theorem register_raises_on_non_object_body
    (generate_password_hash : string → string → string)
    (coerce_text : json → option string) (s : state) (salt : string) :
  register generate_password_hash coerce_text
    (Ok (JArr [JStr "username"; JStr "email"; JStr "password"])) salt s
    = (Raise (TypeError "list indices must be integers or slices, not str"),
       s) ∧
  register generate_password_hash coerce_text (Ok (JNum 5)) salt s
    = (Raise (TypeError "argument of type 'int' is not iterable"), s) ∧
  register generate_password_hash coerce_text (Ok (JBool true)) salt s
    = (Raise (TypeError "argument of type 'bool' is not iterable"), s).
Proof. repeat split. Qed.

(** ** What a quiet run of each note handler computes *)

Lemma hits_nil note_id u l :
  hits note_id u l = [] ↔ ∀ r, r ∈ l → ¬ (n_id r = note_id ∧ n_user_id r = u).
Proof.
  unfold hits. split.
  - intros E r Hr Ht. apply targets_spec in Ht.
    assert (r ∈ filter (λ r, targets note_id u r = true) l) as Hin
      by (apply list_elem_of_filter; done).
    rewrite E in Hin. by apply elem_of_nil in Hin.
  - intros Hn. apply filter_none. intros r Hr Ht.
    apply (Hn r Hr). by apply targets_spec.
Qed.

Lemma misses_all note_id u l :
  hits note_id u l = [] → misses note_id u l = l.
Proof.
  intros E. unfold misses. apply filter_all. intros r Hr.
  apply targets_false. by apply (proj1 (hits_nil _ _ _) E).
Qed.

Lemma get_single_note_run s u note_id :
  quiet s → logged_in_as u s →
  get_single_note note_id s =
    (Ok (match hits note_id u (notes (committed s)) with
         | [] => not_found
         | r :: _ => jsonify (note_json (n_id r) (n_title r) (n_content r))
         end),
     set_txn (committed s) s).
Proof.
  intros Hq Hl. open_state s. unfold get_single_note. run.
  fold (hits note_id u cn). by destruct (hits note_id u cn).
Qed.

Lemma delete_note_run s u note_id :
  quiet s → logged_in_as u s →
  delete_note note_id s =
    match hits note_id u (notes (committed s)) with
    | [] => (Ok not_found, set_txn (committed s) s)
    | _ :: _ =>
        let t := set_notes (misses note_id u (notes (committed s)))
                           (committed s) in
        (Ok (jsonify (message "deleted")), set_txn t (set_committed t s))
    end.
Proof.
  intros Hq Hl. open_state s. unfold delete_note. run.
  fold (hits note_id u cn) (misses note_id u cn).
  destruct (hits note_id u cn) eqn:E; cbn; [|done].
  by rewrite (misses_all _ _ _ E).
Qed.

Lemma update_note_run coerce_text s u note_id (data : gmap string json) tv cv :
  quiet s → logged_in_as u s →
  data !! "title" = Some tv → data !! "content" = Some cv →
  storable coerce_text tv → storable coerce_text cv →
  hits note_id u (notes (committed s)) = [] →
  update_note coerce_text note_id (Ok (JObj data)) s =
    (Ok not_found, set_txn (committed s) s).
Proof.
  intros Hq Hl Ht Hc (lt & xt & At & Bt) (lc & xc & Ac & Bc) Hh.
  open_state s. unfold update_note. run.
  fold (hits note_id u cn). rewrite Hh. done.
Qed.

(** ** C1: a note of another user cannot be updated or deleted *)

(** Whatever the body and whatever the backend does, an update or a delete
    that selects no row leaves the committed tables as they were. *)
Lemma update_note_miss coerce_text s u note_id data :
  logged_in_as u s →
  hits note_id u (notes (committed s)) = [] →
  committed (update_note coerce_text note_id data s).2 = committed s.
Proof.
  intros Hl Hh. open_state s. unfold update_note. run.
  unfold subscript, bind_stored. split_matches; done.
Qed.

Lemma delete_note_miss s u note_id :
  logged_in_as u s →
  hits note_id u (notes (committed s)) = [] →
  committed (delete_note note_id s).2 = committed s.
Proof.
  intros Hl Hh. open_state s. unfold delete_note. run.
  split_matches; done.
Qed.

(** C1, as the claim states it, fails.  [update_note] indexes the body
    before it looks for the note: on a note of another user, a PUT whose
    body has no [title] raises [KeyError], and a PUT whose title contains
    the NUL character raises the [ValueError] of the driver; neither is
    answered 404. *)
Lemma foreign_update_can_raise :
  let s := sample_state {[ "user_id" := 2 ]} in
  (∃ r, r ∈ notes (committed s) ∧ n_id r = 1 ∧ n_user_id r ≠ 2) ∧
  (update_note no_coercion 1 (Ok (JObj {[ "content" := JStr "now" ]})) s).1
    = Raise (KeyError "title") ∧
  (update_note no_coercion 1
     (Ok (JObj {[ "title" := JStr (String Ascii.zero "mine");
                  "content" := JStr "now" ]})) s).1
    = Raise nul_in_literal.
Proof.
  split; [|vm_compute; split; reflexivity].
  exists (mkNote 1 "T1" "C1" 1). split; [left|split; [reflexivity|discriminate]].
Qed.

(** C1, amended.  When the target identifier exists but every stored note
    with that identifier belongs to someone other than the caller, DELETE
    answers 404 "Not found", and so does PUT with a body that carries a
    title and a content the driver adapts and the backend takes for a TEXT
    column (on a backend that does not fail).  On every PUT and DELETE of
    that kind, whatever the body and whatever the backend does, the
    committed tables stay exactly as they were, so title, content and owner
    of the note are unchanged. *)
Theorem foreign_note_is_not_found
    (coerce_text : json → option string) (s : state) (u note_id : Z)
    (data : gmap string json) (tv cv : json) (any : outcome json) :
  logged_in_as u s →
  (∃ r, r ∈ notes (committed s) ∧ n_id r = note_id) →
  (∀ r, r ∈ notes (committed s) → n_id r = note_id → n_user_id r ≠ u) →
  (quiet s →
   data !! "title" = Some tv → storable coerce_text tv →
   data !! "content" = Some cv → storable coerce_text cv →
   (update_note coerce_text note_id (Ok (JObj data)) s).1 = Ok not_found) ∧
  (quiet s → (delete_note note_id s).1 = Ok not_found) ∧
  committed (update_note coerce_text note_id any s).2 = committed s ∧
  committed (delete_note note_id s).2 = committed s ∧
  status not_found = 404.
Proof.
  intros Hl _ Hforeign.
  assert (hits note_id u (notes (committed s)) = []) as Hh.
  { apply hits_nil. intros r Hr [Hi Hu]. by apply (Hforeign r Hr Hi). }
  repeat apply conj.
  - intros Hq Ht St Hc Sc.
    by rewrite (update_note_run coerce_text s u note_id data tv cv).
  - intros Hq. by rewrite (delete_note_run s u note_id), Hh.
  - by apply (update_note_miss coerce_text s u).
  - by apply (delete_note_miss s u).
  - done.
Qed.

Lemma foreign_note_is_not_found_witness :
  let s := sample_state {[ "user_id" := 2 ]} in
  let data : gmap string json :=
    {[ "title" := JStr "mine"; "content" := JStr "now" ]} in
  (update_note no_coercion 1 (Ok (JObj data)) s).1 = Ok not_found ∧
  (delete_note 1 s).1 = Ok not_found ∧
  committed (update_note no_coercion 1 (Ok (JObj ∅)) s).2 = committed s ∧
  committed (delete_note 1 s).2 = committed s.
Proof.
  intros s data.
  destruct (foreign_note_is_not_found no_coercion s 2 1 data
              (JStr "mine") (JStr "now") (Ok (JObj ∅)))
    as (Hput & Hdel & Hsame & Hsame' & _).
  - reflexivity.
  - exists (mkNote 1 "T1" "C1" 1). split; [left|reflexivity].
  - intros r Hr Hid. cbn in Hr.
    repeat (apply elem_of_cons in Hr as [->|Hr]; [cbn in *; lia|]).
    by apply elem_of_nil in Hr.
  - repeat apply conj; [|by apply Hdel|done|done].
    apply Hput; [reflexivity|reflexivity| |reflexivity|].
    + exists (LText "mine"), (Some "mine"). split; reflexivity.
    + exists (LText "now"), (Some "now"). split; reflexivity.
Defined.

(** ** C2: reading one note *)

Lemma hits_cons_owns s u note_id r l :
  hits note_id u (notes (committed s)) = r :: l → owns u note_id s.
Proof.
  intros E. exists r.
  assert (r ∈ hits note_id u (notes (committed s))) as Hin
    by (rewrite E; left).
  apply list_elem_of_filter in Hin as [Ht Hin]. apply targets_spec in Ht.
  tauto.
Qed.

Lemma hits_nil_not_owns s u note_id :
  hits note_id u (notes (committed s)) = [] ↔ ¬ owns u note_id s.
Proof.
  rewrite hits_nil. unfold owns. split.
  - intros Hn (r & Hr & Hi & Hu). by apply (Hn r Hr).
  - intros Hn r Hr [Hi Hu]. apply Hn. by exists r.
Qed.

(** C2.  For an authenticated caller, [GET /notes/<id>] answers 404 exactly
    when the caller owns no note with that identifier.  The 404 response is
    one fixed value: an identifier that does not exist (in [s]) and an
    identifier that belongs to another user (in [s']) produce equal
    responses. *)
Theorem get_single_note_not_found_iff
    (s s' : state) (u u' note_id note_id' : Z) :
  quiet s → logged_in_as u s →
  quiet s' → logged_in_as u' s' →
  (∃ r, (get_single_note note_id s).1 = Ok r ∧
        (status r = 404 ↔ ¬ owns u note_id s) ∧
        (r = not_found ↔ ¬ owns u note_id s)) ∧
  ((∀ r, r ∈ notes (committed s) → n_id r ≠ note_id) →
   (∃ r, r ∈ notes (committed s') ∧ n_id r = note_id') →
   (∀ r, r ∈ notes (committed s') → n_id r = note_id' → n_user_id r ≠ u') →
   (get_single_note note_id s).1 = (get_single_note note_id' s').1 ∧
   (get_single_note note_id' s').1 = Ok not_found).
Proof.
  intros Hq Hl Hq' Hl'.
  rewrite (get_single_note_run s u note_id Hq Hl).
  rewrite (get_single_note_run s' u' note_id' Hq' Hl'). cbn [fst].
  split.
  - destruct (hits note_id u (notes (committed s))) as [|r l] eqn:E.
    + exists not_found. apply hits_nil_not_owns in E. done.
    + eexists. split; [done|]. apply hits_cons_owns in E.
      split; split; cbn; try done; intros; try lia; try tauto.
  - intros Habsent _ Hforeign.
    assert (hits note_id u (notes (committed s)) = []) as ->.
    { apply hits_nil. intros r Hr [Hi _]. by apply (Habsent r Hr). }
    assert (hits note_id' u' (notes (committed s')) = []) as ->; [|done].
    apply hits_nil. intros r Hr [Hi Hu]. by apply (Hforeign r Hr).
Qed.

Lemma get_single_note_not_found_iff_witness :
  let s := sample_state {[ "user_id" := 2 ]} in
  (get_single_note 99 s).1 = (get_single_note 1 s).1 ∧
  (get_single_note 1 s).1 = Ok not_found.
Proof.
  intros s.
  refine (proj2 (get_single_note_not_found_iff s s 2 2 99 1 _ _ _ _) _ _ _);
    try reflexivity.
  - intros r Hr. cbn in Hr.
    repeat (apply elem_of_cons in Hr as [->|Hr]; [cbn; lia|]).
    by apply elem_of_nil in Hr.
  - exists (mkNote 1 "T1" "C1" 1). split; [left|reflexivity].
  - intros r Hr Hid. cbn in Hr.
    repeat (apply elem_of_cons in Hr as [->|Hr]; [cbn in *; lia|]).
    by apply elem_of_nil in Hr.
Defined.

(** ** C7: delete, then get *)

Lemma hits_misses note_id u l : hits note_id u (misses note_id u l) = [].
Proof.
  apply hits_nil. intros r Hr Ht. unfold misses in Hr.
  apply list_elem_of_filter in Hr as [Hf _]. by apply targets_false in Hf.
Qed.

(** C7.  When the caller owns the note, [DELETE /notes/<id>] answers 200
    "deleted", and a [GET] of the same identifier by the same caller right
    after it answers 404.  More generally every delete that answers 200 is
    followed by a 404 on the get. *)
Theorem deleted_note_stays_deleted (s : state) (u note_id : Z) :
  quiet s → logged_in_as u s →
  (owns u note_id s →
   (delete_note note_id s).1 = Ok (mkResponse 200 (message "deleted"))) ∧
  (∀ r, (delete_note note_id s).1 = Ok r → status r = 200 →
        owns u note_id s ∧
        (get_single_note note_id (delete_note note_id s).2).1 = Ok not_found ∧
        ¬ owns u note_id (delete_note note_id s).2).
Proof.
  intros Hq Hl. rewrite (delete_note_run s u note_id Hq Hl).
  destruct (hits note_id u (notes (committed s))) as [|r0 l] eqn:E.
  - split.
    + intros Ho. by apply hits_nil_not_owns in E.
    + cbn. intros r [= <-]. cbn. lia.
  - split; [done|]. intros r _ _. cbn [snd].
    split; [by apply hits_cons_owns in E|].
    set (t := set_notes _ _).
    assert (hits note_id u (notes (committed (set_txn t (set_committed t s))))
            = []) as Hh.
    { destruct s; cbn. apply hits_misses. }
    split; [|by apply hits_nil_not_owns].
    rewrite (get_single_note_run _ u note_id), Hh; [done| |].
    + destruct s; done.
    + destruct s; done.
Qed.

Lemma deleted_note_stays_deleted_witness :
  let s := sample_state {[ "user_id" := 1 ]} in
  (delete_note 2 s).1 = Ok (mkResponse 200 (message "deleted")) ∧
  (get_single_note 2 (delete_note 2 s).2).1 = Ok not_found.
Proof.
  intros s.
  destruct (deleted_note_stays_deleted s 1 2) as [Hdel Hget];
    [reflexivity|reflexivity|].
  assert (owns 1 2 s) as Ho.
  { exists (mkNote 2 "T2" "C2" 1). split; [right; left|done]. }
  split; [exact (Hdel Ho)|].
  exact (proj1 (proj2 (Hget _ (Hdel Ho) eq_refl))).
Defined.

(** ** C10: [POST /notes] does not validate its body *)

(** C10.  With a session, [POST /notes] has one response, 201: there is no
    400 branch.  A body that is not an object with both [title] and
    [content] (a missing field, a body that is not an object, a
    [get_json] that raised) always ends in a raised exception and stores
    nothing; on a quiet backend the exception is the [KeyError] or
    [TypeError] of the subscript. *)
Theorem create_note_does_not_validate
    (coerce_text : json → option string) (s : state) (u : Z)
    (data : outcome json) :
  logged_in_as u s →
  (∀ r, (create_note coerce_text data s).1 = Ok r →
        status r = 201 ∧ has_note_fields data) ∧
  (¬ has_note_fields data →
   ∃ e, (create_note coerce_text data s).1 = Raise e ∧
        committed (create_note coerce_text data s).2 = committed s) ∧
  (quiet s →
   ∀ m, data = Ok (JObj m) →
        (m !! "title" = None →
         (create_note coerce_text data s).1 = Raise (KeyError "title")) ∧
        (is_Some (m !! "title") → m !! "content" = None →
         (create_note coerce_text data s).1 = Raise (KeyError "content"))) ∧
  (quiet s → data = Ok JNull →
   (create_note coerce_text data s).1
     = Raise (TypeError "'NoneType' object is not subscriptable")).
Proof.
  intros Hl.
  assert (∀ r, (create_note coerce_text data s).1 = Ok r →
               status r = 201 ∧ has_note_fields data) as Hok.
  { intros r. open_state s. unfold create_note, has_note_fields. run.
    unfold subscript, bind_stored.
    destruct data as [v|e]; cbn; [|split_matches; discriminate].
    destruct v; cbn; try (split_matches; discriminate).
    destruct (m !! "title") eqn:Et; cbn; [|split_matches; discriminate].
    destruct (m !! "content") eqn:Ec; cbn; [|split_matches; discriminate].
    intros Hr. split; [|by eauto].
    revert Hr. run. split_matches; intros Hr; try discriminate;
      injection Hr as <-; done. }
  split; [exact Hok|]. split; [|split].
  - intros Hno.
    destruct ((create_note coerce_text data s).1) as [r|e] eqn:E.
    { destruct (Hok r eq_refl) as [_ Hhas]. done. }
    exists e. split; [done|]. clear Hok Hno. revert E.
    open_state s. unfold create_note. run. unfold subscript, bind_stored.
    split_matches; intros E; try done; discriminate E.
  - intros Hq m ->. open_state s. unfold create_note.
    split.
    + intros Ht. run. done.
    + intros [t Ht] Hc. run. done.
  - intros Hq ->. open_state s. unfold create_note. run. done.
Qed.

Lemma create_note_does_not_validate_witness :
  let s := sample_state {[ "user_id" := 1 ]} in
  (create_note no_coercion (Ok (JObj {[ "content" := JStr "C" ]})) s).1
    = Raise (KeyError "title").
Proof.
  intros s.
  destruct (create_note_does_not_validate no_coercion s 1
              (Ok (JObj {[ "content" := JStr "C" ]})))
    as (_ & _ & Hkey & _); [reflexivity|].
  destruct (Hkey eq_refl _ eq_refl) as [Ht _].
  apply Ht. reflexivity.
Defined.

(** ** What a quiet run of [register] and [login] computes *)

Lemma adapt_lit_text s t :
  adapt_lit (JStr s) = Ok (LText t) → t = s ∧ plain s.
Proof.
  unfold adapt_lit, plain. cbn. destruct (has_nul s); [discriminate|].
  by intros [= <-].
Qed.

Lemma fetchone_map_nil {A B} (f : A → B) (l : list A) :
  fetchone (map f l) = None → l = [].
Proof. by destruct l. Qed.

(** What a registration that answered 201 did, whatever the body and the
    backend script were. *)
Lemma register_success generate_password_hash coerce_text data salt s r :
  (register generate_password_hash coerce_text data salt s).1 = Ok r →
  status r = 201 →
  ∃ (m : gmap string json) ju je password username email,
    data = Ok (JObj m) ∧
    m !! "username" = Some ju ∧ m !! "email" = Some je ∧
    m !! "password" = Some (JStr password) ∧
    adapt_lit ju = Ok (LText username) ∧
    adapt_lit je = Ok (LText email) ∧
    plain (generate_password_hash salt password) ∧
    users_id_seq s < serial_max ∧
    taken email username (users (committed s)) = [] ∧
    existsb (λ r, (u_id r =? users_id_seq s + 1)
                  || String.eqb (u_username r) username
                  || String.eqb (u_email r) email)
            (users (committed s)) = false ∧
    (register generate_password_hash coerce_text data salt s).2 =
      let t := set_users
                 (users (committed s) ++
                  [mkUser (users_id_seq s + 1) username email
                          (generate_password_hash salt password)])
                 (committed s) in
      mkState t t (users_id_seq s + 1) (notes_id_seq s) (open_conns s)
              (drop 4 (faults s)) (session s).
Proof.
  destruct s as [[cu cn] tx useq nseq oc fs se].
  destruct data as [v|e]; [|discriminate].
  unfold register.
  destruct v as [|b|n|t|l|m].
  1-5: crunch; try (intros Hr; discriminate Hr);
       try (intros [= <-] Hst; discriminate Hst).
  crunch_body; try (intros Hr; discriminate Hr);
       try (intros [= <-] Hst; discriminate Hst).
  all: intros _ _; exists m, j0, j, s, s1, s0.
  all: match goal with
       | H : fetchone (map _ _) = None |- _ => apply fetchone_map_nil in H
       end.
  all: repeat (split; [done|]); reflexivity.
Qed.

Lemma compared_as_str s : plain s → compared_as (JStr s) (Some s).
Proof. intros Hs. exists (LText s). by rewrite adapt_lit_str. Qed.

(** The same for a body whose fields are strings, on a quiet backend. *)
Lemma register_created generate_password_hash coerce_text s
    (data : gmap string json) username email password salt r1 :
  quiet s →
  data !! "username" = Some (JStr username) →
  data !! "email" = Some (JStr email) →
  data !! "password" = Some (JStr password) →
  (register generate_password_hash coerce_text (Ok (JObj data)) salt s).1
    = Ok r1 →
  status r1 = 201 →
  let s1 :=
    (register generate_password_hash coerce_text (Ok (JObj data)) salt s).2 in
  taken email username (users (committed s)) = [] ∧
  users (committed s1) =
    (users (committed s) ++
     [mkUser (users_id_seq s + 1) username email
             (generate_password_hash salt password)])%list ∧
  quiet s1 ∧ session s1 = session s ∧
  plain username ∧ plain email ∧
  notes (committed s1) = notes (committed s) ∧
  notes_id_seq s1 = notes_id_seq s ∧
  (∀ r, r ∈ users (committed s) → u_id r ≠ users_id_seq s + 1).
Proof.
  intros Hq Hu He Hp Hr1 H201.
  destruct (register_success _ _ _ _ _ _ Hr1 H201)
    as (m & ju & je & pw & un & em & E & Hu' & He' & Hp' & Au & Ae & _ & _
        & Htk & Hex & Hst).
  injection E as <-.
  rewrite Hu in Hu'. injection Hu' as <-.
  rewrite He in He'. injection He' as <-.
  rewrite Hp in Hp'. injection Hp' as <-.
  apply adapt_lit_text in Au as [-> Hpu], Ae as [-> Hpe].
  cbv zeta. rewrite Hst. unfold quiet in *.
  destruct s as [[cu cn] tx useq nseq oc fs se]. cbn in *. subst fs.
  repeat (split; [done|]).
  intros r Hr Ei.
  assert (existsb (λ r, (u_id r =? useq + 1)
                        || String.eqb (u_username r) username
                        || String.eqb (u_email r) email) cu = true) as Ht;
    [|congruence].
  apply existsb_exists. exists r. split; [by apply list_elem_of_In|].
  apply Z.eqb_eq in Ei. by rewrite Ei.
Qed.

Lemma login_run check_password_hash s (data : gmap string json) email password :
  quiet s →
  data !! "email" = Some (JStr email) → plain email →
  data !! "password" = Some (JStr password) →
  login check_password_hash (Ok (JObj data)) s =
    match with_email email (users (committed s)) with
    | [] => (Ok invalid_credentials, set_txn (committed s) s)
    | row :: _ =>
        if check_password_hash (u_password_hash row) password
        then (Ok logged_in,
              set_session (<["user_id" := u_id row]> (session s))
                          (set_txn (committed s) s))
        else (Ok invalid_credentials, set_txn (committed s) s)
    end.
Proof.
  intros Hq He Hpl Hp. open_state s. unfold login. run.
  rewrite (truthy_obj data _ _ He). run.
  fold (with_email email cu).
  destruct (with_email email cu) as [|row l]; cbn; [done|].
  destruct (check_password_hash _ _); done.
Qed.

Lemma taken_nil email username l :
  taken email username l = [] ↔
  ∀ r, r ∈ l → u_email r ≠ email ∧ u_username r ≠ username.
Proof.
  unfold taken. split.
  - intros E r Hr.
    assert (¬ (String.eqb (u_email r) email
               || String.eqb (u_username r) username = true)) as Hn.
    { intros Ht.
      assert (r ∈ filter (λ r, String.eqb (u_email r) email
                  || String.eqb (u_username r) username = true) l) as Hin
        by (apply list_elem_of_filter; done).
      rewrite E in Hin. by apply elem_of_nil in Hin. }
    rewrite orb_true_iff, !String.eqb_eq in Hn. tauto.
  - intros Hn. apply filter_none. intros r Hr Ht.
    rewrite orb_true_iff, !String.eqb_eq in Ht.
    destruct (Hn r Hr). tauto.
Qed.

Lemma with_email_nil email l :
  with_email email l = [] ↔ ∀ r, r ∈ l → u_email r ≠ email.
Proof.
  unfold with_email. split.
  - intros E r Hr He.
    assert (r ∈ filter (λ r, String.eqb (u_email r) email = true) l) as Hin
      by (apply list_elem_of_filter; split; [by apply String.eqb_eq|done]).
    rewrite E in Hin. by apply elem_of_nil in Hin.
  - intros Hn. apply filter_none. intros r Hr Ht.
    apply String.eqb_eq in Ht. by apply (Hn r Hr).
Qed.

(** ** C5: registering twice *)

(** A registration whose email or username the SELECT finds taken is
    answered 400. *)
Lemma register_taken generate_password_hash coerce_text s
    (data : gmap string json) ju je tu te password salt row :
  quiet s →
  data !! "username" = Some ju → compared_as ju tu →
  data !! "email" = Some je → compared_as je te →
  data !! "password" = Some (JStr password) →
  row ∈ users (committed s) →
  text_eq (u_email row) te || text_eq (u_username row) tu = true →
  register generate_password_hash coerce_text (Ok (JObj data)) salt s
    = (Ok user_already_exists, set_txn (committed s) s).
Proof.
  intros Hq Hu (lu & Au & Cu) He (le & Ae & Ce) Hp Hrow Ht.
  open_state s. unfold register. run.
  rewrite (truthy_obj data _ _ Hu). run.
  match goal with |- context [filter ?P cu] =>
    destruct (filter P cu) as [|r0 l0] eqn:E end; [|done].
  exfalso.
  assert (row ∈ filter (λ r, text_eq (u_email r) te
                             || text_eq (u_username r) tu = true) cu) as Hin
    by (by apply list_elem_of_filter).
  rewrite E in Hin. by apply elem_of_nil in Hin.
Qed.

(** What a registration does to the stored users, whatever the body and the
    backend: nothing, or one more row whose username and email are new. *)
Lemma register_effect generate_password_hash coerce_text data salt s :
  let s' := (register generate_password_hash coerce_text data salt s).2 in
  committed s' = committed s ∨
  ∃ row, users (committed s') = (users (committed s) ++ [row])%list ∧
         notes (committed s') = notes (committed s) ∧
         ∀ r, r ∈ users (committed s) →
              u_email r ≠ u_email row ∧ u_username r ≠ u_username row.
Proof.
  cbv zeta.
  destruct ((register generate_password_hash coerce_text data salt s).1)
    as [r|e] eqn:E.
  - destruct (decide (status r = 201)) as [H201|Hno].
    + right.
      destruct (register_success _ _ _ _ _ _ E H201)
        as (m & ju & je & pw & un & em & _ & _ & _ & _ & _ & _ & _ & _
            & Htk & _ & ->).
      eexists. cbn. split; [reflexivity|]. split; [by destruct s as [[]]|].
      cbn. by apply taken_nil.
    + left. revert E Hno.
      destruct s as [[cu cn] tx useq nseq oc fs se]. unfold register.
      crunch; intros E Hno; try reflexivity; try discriminate E.
      all: injection E as <-; by destruct Hno.
  - left. revert E.
    destruct s as [[cu cn] tx useq nseq oc fs se]. unfold register.
    crunch; intros E; try reflexivity; discriminate E.
Qed.




(** ** C4: failed logins look alike *)

Lemma with_email_filter email l :
  with_email email l = filter (λ r, u_email r = email) l.
Proof.
  unfold with_email. apply list_filter_iff. intros r. apply String.eqb_eq.
Qed.

Lemma plain_check_spec salt p p' :
  plain_check (plain_hash salt p) p' = true ↔ p' = p.
Proof.
  unfold plain_check, plain_hash. rewrite String.eqb_eq. split; congruence.
Qed.




(** ** C6: listing the notes of an owner *)

#[global] Instance id_desc_trans : Transitive id_desc.
Proof. unfold id_desc. intros a b c. lia. Qed.

#[global] Instance id_desc_total : Total id_desc.
Proof. unfold id_desc. intros a b. lia. Qed.

Lemma get_notes_run s u :
  quiet s → logged_in_as u s →
  get_notes s =
    (Ok (jsonify (JArr (map note_row (owned_desc u (notes (committed s)))))),
     set_txn (committed s) s).
Proof.
  intros Hq Hl. open_state s. unfold get_notes. run. done.
Qed.

Lemma existsb_false {A} (f : A → bool) (l : list A) :
  (∀ x, x ∈ l → f x = false) → existsb f l = false.
Proof.
  induction l as [|a l IH]; intros Hf; [done|]. cbn.
  rewrite (Hf a) by left. apply IH. intros x Hx. apply Hf. by right.
Qed.

Lemma existsb_true {A} (f : A → bool) (l : list A) x :
  x ∈ l → f x = true → existsb f l = true.
Proof.
  induction l as [|a l IH]; intros Hx Hf; [by apply elem_of_nil in Hx|].
  cbn. apply elem_of_cons in Hx as [->|Hx]; [by rewrite Hf|].
  rewrite (IH Hx Hf). apply orb_true_r.
Qed.

Lemma create_note_run coerce_text s u (data : gmap string json) title content :
  quiet s → logged_in_as u s →
  notes_keyed s → user_exists u s →
  notes_id_seq s < serial_max →
  data !! "title" = Some (JStr title) → plain title →
  data !! "content" = Some (JStr content) → plain content →
  create_note coerce_text (Ok (JObj data)) s =
    let i := notes_id_seq s + 1 in
    let t := set_notes (notes (committed s) ++ [mkNote i title content u])
                       (committed s) in
    (Ok note_created, set_notes_id_seq i (set_txn t (set_committed t s))).
Proof.
  intros Hq Hl [_ Hseq] (r & Hr & Hu) Hmax Ht Hpt Hc Hpc.
  unfold user_exists in *.
  open_state s. unfold create_note. run.
  destruct (Z.ltb_spec nseq serial_max) as [_|Hge]; [|lia]. cbn.
  rewrite existsb_false.
  2:{ intros x Hx. apply Z.eqb_neq. specialize (Hseq x Hx). lia. }
  rewrite (existsb_true _ cu r Hr) by (by apply Z.eqb_eq).
  done.
Qed.

(** What a [POST /notes] that answered 201 did, whatever the body and the
    backend script were. *)
Lemma create_note_success coerce_text data s r :
  (create_note coerce_text data s).1 = Ok r →
  status r = 201 →
  ∃ u (m : gmap string json) jt jc lt lc title content,
    logged_in_as u s ∧
    data = Ok (JObj m) ∧
    m !! "title" = Some jt ∧ m !! "content" = Some jc ∧
    adapt_lit jt = Ok lt ∧ store_text coerce_text lt = Ok (Some title) ∧
    adapt_lit jc = Ok lc ∧ store_text coerce_text lc = Ok (Some content) ∧
    notes_id_seq s < serial_max ∧
    existsb (λ r, n_id r =? notes_id_seq s + 1) (notes (committed s))
      = false ∧
    existsb (λ r, u_id r =? u) (users (committed s)) = true ∧
    (create_note coerce_text data s).2 =
      let t := set_notes
                 (notes (committed s) ++
                  [mkNote (notes_id_seq s + 1) title content u])
                 (committed s) in
      mkState t t (users_id_seq s) (notes_id_seq s + 1) (open_conns s)
              (drop 3 (faults s)) (session s).
Proof.
  unfold logged_in_as.
  destruct s as [[cu cn] tx useq nseq oc fs se].
  unfold create_note. unfold_ops. cbn -[filter].
  destruct (se !! "user_id") as [u|] eqn:Hu; cbn -[filter];
    [|intros [= <-] Hst; discriminate Hst].
  destruct data as [[| | | | |m]|e];
    crunch; try (intros Hr; discriminate Hr);
    try (intros [= <-] Hst; discriminate Hst).
  all: intros _ _.
  all: match goal with
       | Ht : ?m !! "title" = Some ?jt, Hc : ?m !! "content" = Some ?jc,
         At : adapt_lit ?jt = Ok ?lt, Ac : adapt_lit ?jc = Ok ?lc,
         St : store_text _ ?lt = Ok (Some ?ti),
         Sc : store_text _ ?lc = Ok (Some ?co) |- _ =>
           exists u, m, jt, jc, lt, lc, ti, co
       end.
  all: repeat (split; [done|]); reflexivity.
Qed.

Lemma store_text_text coerce_text t x :
  store_text coerce_text (LText t) = Ok (Some x) → x = t.
Proof. by intros [= ->]. Qed.

(** The same for a body whose fields are strings, on a quiet backend. *)
Lemma create_note_created coerce_text s u (data : gmap string json)
    title content r :
  quiet s → logged_in_as u s →
  data !! "title" = Some (JStr title) →
  data !! "content" = Some (JStr content) →
  (create_note coerce_text (Ok (JObj data)) s).1 = Ok r →
  status r = 201 →
  (create_note coerce_text (Ok (JObj data)) s).2
    = after_create s u title content ∧
  user_exists u s ∧ plain title ∧ plain content ∧
  notes_id_seq s < serial_max.
Proof.
  intros Hq Hl Ht Hc Hr H201.
  destruct (create_note_success _ _ _ _ Hr H201)
    as (u' & m & jt & jc & lt & lc & ti & co & Hl' & E & Ht' & Hc' & At & St
        & Ac & Sc & Hmax & _ & Hex & Hs).
  injection E as <-.
  rewrite Ht in Ht'. injection Ht' as <-.
  rewrite Hc in Hc'. injection Hc' as <-.
  unfold logged_in_as in *. rewrite Hl in Hl'. injection Hl' as <-.
  assert (lt = LText title ∧ plain title) as [-> Hpt].
  { unfold adapt_lit, plain in *. cbn in At.
    destruct (has_nul title); [discriminate|]. by injection At as <-. }
  assert (lc = LText content ∧ plain content) as [-> Hpc].
  { unfold adapt_lit, plain in *. cbn in Ac.
    destruct (has_nul content); [discriminate|]. by injection Ac as <-. }
  apply store_text_text in St as ->, Sc as ->.
  rewrite Hs. unfold quiet in Hq.
  split; [|split; [|done]].
  - destruct s as [[cu cn] tx useq nseq oc fs se]. cbn in *. by subst fs.
  - apply existsb_exists in Hex as (w & Hw & Ew).
    exists w. split; [by apply list_elem_of_In|by apply Z.eqb_eq].
Qed.

Lemma keyed_inj (l : list Note) x y :
  NoDup (map n_id l) → x ∈ l → y ∈ l → n_id x = n_id y → x = y.
Proof.
  induction l as [|a l IH]; cbn; intros Hnd Hx Hy E;
    [by apply elem_of_nil in Hx|].
  apply NoDup_cons in Hnd as [Hna Hnd].
  assert (∀ z, z ∈ l → n_id z ≠ n_id a) as Hfresh.
  { intros z Hz Ez. apply Hna. rewrite <- Ez.
    apply list_elem_of_In, in_map, list_elem_of_In, Hz. }
  apply elem_of_cons in Hx as [->|Hx]; apply elem_of_cons in Hy as [->|Hy].
  - done.
  - exfalso. by apply (Hfresh y Hy).
  - exfalso. by apply (Hfresh x Hx).
  - by apply IH.
Qed.

Lemma owned_desc_elem u l r :
  r ∈ owned_desc u l ↔ r ∈ l ∧ n_user_id r = u.
Proof.
  unfold owned_desc. rewrite merge_sort_Permutation, list_elem_of_filter.
  tauto.
Qed.

Lemma owned_desc_sorted u l : StronglySorted id_desc (owned_desc u l).
Proof. unfold owned_desc. apply StronglySorted_merge_sort; apply _. Qed.

Lemma owned_desc_NoDup u l :
  NoDup (map n_id l) → NoDup (map n_id (owned_desc u l)).
Proof.
  intros Hnd. unfold owned_desc.
  assert (NoDup (map n_id (filter (λ r, n_user_id r = u) l))) as Hf.
  { induction l as [|a l IH]; [done|]. cbn in Hnd.
    apply NoDup_cons in Hnd as [Hna Hnd].
    destruct (decide (n_user_id a = u)) as [E|E].
    - rewrite filter_cons_True by done. cbn. apply NoDup_cons.
      split; [|by apply IH]. intros Hin. apply Hna.
      apply list_elem_of_In, in_map_iff in Hin as (z & Ez & Hz).
      apply list_elem_of_In, list_elem_of_filter in Hz as [_ Hz].
      rewrite <- Ez. apply list_elem_of_In, in_map, list_elem_of_In, Hz.
    - rewrite filter_cons_False by done. by apply IH. }
  revert Hf. apply NoDup_Permutation_proper.
  apply Permutation_map, merge_sort_Permutation.
Qed.

(** A list sorted by [id_desc] whose identifiers are distinct is strictly
    descending. *)
Lemma sorted_strict (l : list Note) :
  StronglySorted id_desc l → NoDup (map n_id l) →
  StronglySorted (λ a b, n_id b < n_id a) l.
Proof.
  induction 1 as [|a l Hs IH Hall]; cbn; intros Hnd; [constructor|].
  apply NoDup_cons in Hnd as [Hna Hnd].
  constructor; [by apply IH|].
  apply Forall_forall. intros b Hb.
  assert (id_desc a b) as Hle
    by exact (proj1 (Forall_forall _ _) Hall b Hb).
  assert (n_id b ≠ n_id a) as Hne.
  { intros E. apply Hna. rewrite <- E.
    apply list_elem_of_In, in_map, list_elem_of_In, Hb. }
  unfold id_desc in Hle. lia.
Qed.

Lemma keyed_snoc (l : list Note) (new : Note) :
  NoDup (map n_id l) → (∀ r, r ∈ l → n_id r < n_id new) →
  NoDup (map n_id (l ++ [new])).
Proof.
  intros Hnd Hlt. rewrite map_app. apply NoDup_app. split; [done|]. split.
  - intros i Hi Hnew. cbn in Hnew. apply list_elem_of_singleton in Hnew.
    apply list_elem_of_In, in_map_iff in Hi as (z & Ez & Hz).
    apply list_elem_of_In in Hz. specialize (Hlt z Hz). lia.
  - cbn. apply NoDup_singleton.
Qed.

(** A new row with the largest identifier comes first in the listing of
    its owner. *)
Lemma owned_desc_snoc u (l : list Note) (new : Note) :
  NoDup (map n_id l) → (∀ r, r ∈ l → n_id r < n_id new) →
  n_user_id new = u →
  owned_desc u (l ++ [new]) = new :: owned_desc u l.
Proof.
  intros Hnd Hlt Hu.
  apply (StronglySorted_unique_strong id_desc).
  - intros x y Hx Hy Hxy Hyx. unfold id_desc in *.
    apply (keyed_inj (l ++ [new])); [by apply keyed_snoc| | |lia].
    + apply owned_desc_elem in Hx. tauto.
    + apply elem_of_cons in Hy as [->|Hy].
      * apply elem_of_app. right. left.
      * apply owned_desc_elem in Hy. apply elem_of_app. tauto.
  - apply owned_desc_sorted.
  - constructor; [apply owned_desc_sorted|].
    apply Forall_forall. intros r Hr. apply owned_desc_elem in Hr as [Hr _].
    unfold id_desc. specialize (Hlt r Hr). lia.
  - unfold owned_desc.
    rewrite !merge_sort_Permutation, filter_app, filter_cons_True by done.
    rewrite filter_nil. symmetry. apply Permutation_cons_append.
Qed.

Lemma after_create_keeps s u title content v :
  quiet s → logged_in_as v s → notes_keyed s → user_exists v s →
  quiet (after_create s u title content) ∧
  logged_in_as v (after_create s u title content) ∧
  notes_keyed (after_create s u title content) ∧
  user_exists v (after_create s u title content).
Proof.
  intros Hq Hl [Hnd Hseq] Hu. unfold notes_keyed, user_exists in *.
  destruct s as [[cu cn] tx useq nseq oc fs se]. cbn in *.
  repeat split; try done.
  - apply keyed_snoc; [done|]. intros r Hr. specialize (Hseq r Hr). cbn. lia.
  - intros r Hr. apply elem_of_app in Hr as [Hr|Hr].
    + specialize (Hseq r Hr). lia.
    + apply list_elem_of_singleton in Hr as ->. cbn. lia.
Qed.

Lemma owned_desc_after_create s u title content :
  notes_keyed s →
  owned_desc u (notes (committed (after_create s u title content))) =
    mkNote (notes_id_seq s + 1) title content u
    :: owned_desc u (notes (committed s)).
Proof.
  intros [Hnd Hseq]. destruct s as [[cu cn] tx useq nseq oc fs se]. cbn in *.
  apply owned_desc_snoc; [done| |done].
  intros r Hr. specialize (Hseq r Hr). cbn. lia.
Qed.

(** C6.  For a logged-in owner [u] on a store whose note identifiers are
    distinct, [GET /notes] returns rows that are exactly the stored notes
    of [u], in strictly descending identifier order, and the empty list when
    [u] owns none; each row is shown as the object of its id, title and
    content.  After [u] creates note A and then note B (both answered 201)
    the listing is B, A, followed by what it was before.  The two creations
    are answered 201 when [u] is a stored user, the titles and contents are
    strings the driver takes and the sequence has two values left. *)
Theorem listing_is_owned_and_descending
    (coerce_text : json → option string) (s : state) (u : Z)
    (dA dB : gmap string json) (tA cA tB cB : string) :
  quiet s → logged_in_as u s →
  notes_keyed s →
  dA !! "title" = Some (JStr tA) → dA !! "content" = Some (JStr cA) →
  dB !! "title" = Some (JStr tB) → dB !! "content" = Some (JStr cB) →
  let createA := create_note coerce_text (Ok (JObj dA)) s in
  let createB := create_note coerce_text (Ok (JObj dB)) createA.2 in
  ∃ rows : list Note,
    (get_notes s).1 = Ok (mkResponse 200 (JArr (map note_object rows))) ∧
    (∀ r, r ∈ rows ↔ r ∈ notes (committed s) ∧ n_user_id r = u) ∧
    StronglySorted (λ a b, n_id b < n_id a) rows ∧
    ((∀ r, r ∈ notes (committed s) → n_user_id r ≠ u) → rows = []) ∧
    (user_exists u s →
     plain tA → plain cA → plain tB → plain cB →
     notes_id_seq s + 2 ≤ serial_max →
     createA.1 = Ok note_created ∧ createB.1 = Ok note_created) ∧
    (∀ rA rB,
       createA.1 = Ok rA → status rA = 201 →
       createB.1 = Ok rB → status rB = 201 →
       (get_notes createB.2).1 =
         Ok (mkResponse 200
               (JArr (map note_object
                        (mkNote (notes_id_seq s + 2) tB cB u
                         :: mkNote (notes_id_seq s + 1) tA cA u :: rows))))).
Proof.
  intros Hq Hl Hk HtA HcA HtB HcB createA createB.
  exists (owned_desc u (notes (committed s))).
  rewrite (get_notes_run s u Hq Hl).
  split; [done|]. split; [apply owned_desc_elem|]. split.
  { apply sorted_strict; [apply owned_desc_sorted|].
    apply owned_desc_NoDup, Hk. }
  split.
  { intros Hnone.
    destruct (owned_desc u (notes (committed s))) as [|r l] eqn:E; [done|].
    assert (r ∈ owned_desc u (notes (committed s))) as Hr
      by (rewrite E; left).
    apply owned_desc_elem in Hr as [Hr Hown]. by destruct (Hnone r Hr). }
  split.
  { intros Hu HpA HpcA HpB HpcB Hmax.
    assert (createA = (Ok note_created, after_create s u tA cA)) as EA
      by (apply create_note_run; try done; lia).
    destruct (after_create_keeps s u tA cA u Hq Hl Hk Hu)
      as (HqA & HlA & HkA & HuA).
    split; [by rewrite EA|].
    unfold createB. rewrite EA. cbn [snd].
    rewrite (create_note_run coerce_text _ u dB tB cB); try done.
    destruct s; cbn in *; lia. }
  intros rA rB HA H201A HB H201B.
  destruct (create_note_created coerce_text s u dA tA cA rA Hq Hl HtA HcA
              HA H201A) as (EA & Hu & _).
  fold createA in EA.
  destruct (after_create_keeps s u tA cA u Hq Hl Hk Hu)
    as (HqA & HlA & HkA & HuA).
  unfold createB in HB |- *. rewrite EA in HB |- *.
  destruct (create_note_created coerce_text _ u dB tB cB rB HqA HlA HtB HcB
              HB H201B) as (EB & _).
  rewrite EB.
  destruct (after_create_keeps _ u tB cB u HqA HlA HkA HuA)
    as (HqB & HlB & HkB & HuB).
  rewrite (get_notes_run _ u HqB HlB).
  rewrite !owned_desc_after_create by done.
  replace (notes_id_seq (after_create s u tA cA) + 1)
    with (notes_id_seq s + 2) by (destruct s; cbn; lia).
  done.
Qed.

Lemma listing_is_owned_and_descending_witness :
  let s := sample_state {[ "user_id" := 1 ]} in
  let dA : gmap string json :=
    {[ "title" := JStr "A"; "content" := JStr "a" ]} in
  let dB : gmap string json :=
    {[ "title" := JStr "B"; "content" := JStr "b" ]} in
  let createA := create_note no_coercion (Ok (JObj dA)) s in
  let createB := create_note no_coercion (Ok (JObj dB)) createA.2 in
  ∃ rows : list Note,
    (get_notes s).1 = Ok (mkResponse 200 (JArr (map note_object rows))) ∧
    (createA.1 = Ok note_created ∧ createB.1 = Ok note_created) ∧
    (get_notes createB.2).1 =
      Ok (mkResponse 200
            (JArr (map note_object
                     (mkNote 5 "B" "b" 1 :: mkNote 4 "A" "a" 1 :: rows)))).
Proof.
  intros s dA dB createA createB.
  assert (notes_keyed s) as Hk.
  { split.
    - cbn. repeat (apply NoDup_cons; split;
                   [rewrite ?elem_of_cons, elem_of_nil; lia|]).
      apply NoDup_nil_2.
    - intros r Hr. cbn in Hr.
      repeat (apply elem_of_cons in Hr as [->|Hr]; [cbn; lia|]).
      destruct (proj1 (elem_of_nil r) Hr). }
  destruct (listing_is_owned_and_descending no_coercion s 1 dA dB
              "A" "a" "B" "b" eq_refl eq_refl Hk eq_refl eq_refl eq_refl
              eq_refl) as (rows & Hget & _ & _ & _ & Hcreate & Hlist).
  assert (user_exists 1 s) as Hu
    by (exists (mkUser 1 "alice" "a@x.com" "pw1"); split; [left|reflexivity]).
  assert (notes_id_seq s + 2 ≤ serial_max) as Hmax
    by (vm_compute; discriminate).
  pose proof (Hcreate Hu eq_refl eq_refl eq_refl eq_refl Hmax) as Hc.
  exists rows. split; [exact Hget|]. split; [exact Hc|].
  exact (Hlist note_created note_created (proj1 Hc) eq_refl
           (proj2 Hc) eq_refl).
Defined.

(** ** The primary key of [notes] is an invariant of the handlers

    [notes_keyed] is what C6 assumes of the store.  It holds of the empty
    store and every handler keeps it, whatever the request and whatever the
    backend does. *)

Lemma keyed_filter n (P : Note → Prop) `{∀ r, Decision (P r)} l :
  keyed n l → keyed n (filter P l).
Proof.
  intros [Hnd Hle]. split.
  - clear Hle. induction l as [|a l IH]; [done|]. cbn in Hnd.
    apply NoDup_cons in Hnd as [Hna Hnd].
    destruct (decide (P a)) as [E|E].
    + rewrite filter_cons_True by done. cbn. apply NoDup_cons.
      split; [|by apply IH]. intros Hin. apply Hna.
      apply list_elem_of_In, in_map_iff in Hin as (z & Ez & Hz).
      apply list_elem_of_In, list_elem_of_filter in Hz as [_ Hz].
      rewrite <- Ez. apply list_elem_of_In, in_map, list_elem_of_In, Hz.
    + rewrite filter_cons_False by done. by apply IH.
  - intros r Hr. apply list_elem_of_filter in Hr as [_ Hr]. by apply Hle.
Qed.

Lemma keyed_retitle n (f : Note → Note) l :
  (∀ r, n_id (f r) = n_id r) → keyed n l → keyed n (map f l).
Proof.
  intros Hf [Hnd Hle]. split.
  - rewrite map_map. erewrite map_ext; [exact Hnd|]. intros r. apply Hf.
  - intros r Hr. apply list_elem_of_In, in_map_iff in Hr as (z & <- & Hz).
    rewrite Hf. by apply Hle, list_elem_of_In.
Qed.

Lemma keyed_next n l title content u :
  keyed n l → keyed (n + 1) (l ++ [mkNote (n + 1) title content u]).
Proof.
  intros [Hnd Hle]. split.
  - apply keyed_snoc; [done|]. intros r Hr. specialize (Hle r Hr). cbn. lia.
  - intros r Hr. apply elem_of_app in Hr as [Hr|Hr].
    + specialize (Hle r Hr). lia.
    + apply list_elem_of_singleton in Hr as ->. cbn. lia.
Qed.

Lemma keyed_mono n m l : n ≤ m → keyed n l → keyed m l.
Proof.
  intros Hnm [Hnd Hle]. split; [done|].
  intros r Hr. specialize (Hle r Hr). lia.
Qed.

#[global] Instance keyed_to_preorder : PreOrder keyed_to.
Proof. split; unfold keyed_to; [intros s|intros s1 s2 s3]; tauto. Qed.

#[global] Instance same_conns_preorder : PreOrder same_conns.
Proof.
  split; unfold same_conns; [intros s|intros s1 s2 s3]; congruence.
Qed.

Section Keeps.

Context (R : relation state) `{!PreOrder R}.

Lemma keeps_ret {A} (a : A) : keeps R (ret a).
Proof. intros s. reflexivity. Qed.

Lemma keeps_raise {A} (e : exn) : keeps R (@raise A e).
Proof. intros s. reflexivity. Qed.

Lemma keeps_lift {A} (o : outcome A) : keeps R (lift o).
Proof. intros s. reflexivity. Qed.

Lemma keeps_bind {A B} (m : M A) (k : A → M B) :
  keeps R m → (∀ a, keeps R (k a)) → keeps R (bind m k).
Proof.
  intros Hm Hk s. unfold bind. specialize (Hm s).
  destruct (m s) as [[a|e] s']; [|done].
  etransitivity; [exact Hm|apply Hk].
Qed.

Lemma keeps_try_finally {A} (body : M A) (fin : M unit) :
  keeps R body → keeps R fin → keeps R (try_finally body fin).
Proof.
  intros Hb Hf s. unfold try_finally. specialize (Hb s).
  destruct (body s) as [r s1]. specialize (Hf s1).
  destruct (fin s1) as [[[]|e] s2]; by etransitivity.
Qed.

Lemma keeps_try_except {A} (body : M A) (handler : exn → M A) :
  keeps R body → (∀ e, keeps R (handler e)) →
  keeps R (try_except body handler).
Proof.
  intros Hb Hh s. unfold try_except. specialize (Hb s).
  destruct (body s) as [[a|e] s1]; [done|].
  etransitivity; [exact Hb|apply Hh].
Qed.

Lemma keeps_if {A} (b : bool) (m1 m2 : M A) :
  keeps R m1 → keeps R m2 → keeps R (if b then m1 else m2).
Proof. by destruct b. Qed.

Lemma keeps_option {A B} (o : option A) (m1 : A → M B) (m2 : M B) :
  (∀ a, keeps R (m1 a)) → keeps R m2 →
  keeps R (match o with Some a => m1 a | None => m2 end).
Proof. destruct o; auto. Qed.

(** Steps that leave the state alone. *)

Lemma keeps_session_contains k : keeps R (session_contains k).
Proof. intros s. reflexivity. Qed.

Lemma keeps_session_get k : keeps R (session_get k).
Proof.
  intros s. unfold session_get. destruct (session s !! k); reflexivity.
Qed.

Lemma keeps_get_txn : keeps R get_txn.
Proof. intros s. reflexivity. Qed.

Lemma keeps_subscript data k : keeps R (subscript data k).
Proof.
  unfold subscript. destruct data; try apply keeps_raise.
  destruct (m !! k); [apply keeps_ret|apply keeps_raise].
Qed.

Lemma keeps_contains k data : keeps R (contains k data).
Proof.
  unfold contains. destruct data; try apply keeps_raise; apply keeps_ret.
Qed.

Lemma keeps_all_in ks data : keeps R (all_in ks data).
Proof.
  induction ks as [|k ks IH]; cbn; [apply keeps_ret|].
  apply keeps_bind; [apply keeps_contains|].
  intros b. apply keeps_if; [done|apply keeps_ret].
Qed.

Lemma keeps_encode v : keeps R (encode v).
Proof.
  unfold encode. destruct v; try apply keeps_raise; apply keeps_ret.
Qed.

Lemma keeps_adapt v : keeps R (adapt v).
Proof. apply keeps_lift. Qed.

Lemma keeps_adapt_str s : keeps R (adapt_str s).
Proof.
  unfold adapt_str. destruct (has_nul s); [apply keeps_raise|apply keeps_ret].
Qed.

Lemma keeps_bind_compared l : keeps R (bind_compared l).
Proof. apply keeps_lift. Qed.

Lemma keeps_bind_stored c l : keeps R (bind_stored c l).
Proof. apply keeps_lift. Qed.

End Keeps.

(** A connection opened in front of [try: ... finally: conn.close()] is
    closed again, provided the body opens and closes none itself. *)
Lemma conns_scoped {A} (body : M A) :
  keeps same_conns body →
  keeps same_conns
    (get_db >> cursor >> try_finally body (cur_close >> conn_close)).
Proof.
  intros Hb s. unfold same_conns in *.
  unfold bind, get_db, backend_call, cursor, cur_close, conn_close, ret,
    try_finally.
  destruct s as [cm tx us ns oc [|[m|] f] se]; cbn; try done.
  - match goal with |- context [body ?s1] =>
      specialize (Hb s1); destruct (body s1) as [r s2] end.
    cbn in *. by rewrite Hb.
  - match goal with |- context [body ?s1] =>
      specialize (Hb s1); destruct (body s1) as [r s2] end.
    cbn in *. by rewrite Hb.
Qed.

Create HintDb keys.
Create HintDb conns.

#[global] Hint Resolve keeps_ret keeps_raise keeps_lift
  keeps_session_contains keeps_session_get keeps_subscript keeps_contains
  keeps_all_in keeps_encode keeps_adapt keeps_adapt_str keeps_bind_compared
  keeps_bind_stored
  : keys conns.
#[global] Hint Resolve keyed_to_preorder : keys.
#[global] Hint Resolve same_conns_preorder : conns.

(** Walk down a computation with the rules of [Keeps]; the steps come from
    the hint database. *)
Tactic Notation "walk" "with" ident(db) :=
  repeat first
    [ progress eauto with db
    | apply conns_scoped
    | apply keeps_bind; [solve [apply _]| |intros ?]
    | apply keeps_try_finally; [solve [apply _]| |]
    | apply keeps_try_except; [solve [apply _]| |intros ?]
    | apply keeps_if
    | apply keeps_option; [intros ?|]
    | progress unfold execute, cursor, cur_close ].

(** Peel [n] leading binds whose first part is a known step. *)
Tactic Notation "peel" integer(n) "with" ident(db) :=
  do n (apply keeps_bind;
          [solve [apply _]|solve [eauto with db]|intros ?]).

(** *** The steps that write keep the primary key *)

Lemma keyed_backend_call : keeps keyed_to backend_call.
Proof.
  intros s Hs. unfold backend_call.
  destruct s as [c t us ns oc [|[m|] f] se]; done.
Qed.

Lemma keyed_get_db : keeps keyed_to get_db.
Proof.
  apply keeps_bind; [apply _|apply keyed_backend_call|].
  intros _ s [Hc _]. destruct s. by split.
Qed.

Lemma keyed_conn_commit : keeps keyed_to conn_commit.
Proof.
  apply keeps_bind; [apply _|apply keyed_backend_call|].
  intros _ s [_ Ht]. destruct s. by split.
Qed.

Lemma keyed_conn_rollback : keeps keyed_to conn_rollback.
Proof.
  apply keeps_bind; [apply _|apply keyed_backend_call|].
  intros _ s [Hc _]. destruct s. by split.
Qed.

Lemma keyed_conn_close : keeps keyed_to conn_close.
Proof. intros s [Hc _]. destruct s. by split. Qed.

Lemma keyed_session_set k v : keeps keyed_to (session_set k v).
Proof. intros s Hs. by destruct s. Qed.

Lemma keyed_session_clear : keeps keyed_to session_clear.
Proof. intros s Hs. by destruct s. Qed.

#[global] Hint Resolve keyed_backend_call keyed_get_db keyed_conn_commit
  keyed_conn_rollback keyed_conn_close keyed_session_set
  keyed_session_clear : keys.

Lemma keyed_select_user_ids email username :
  keeps keyed_to (select_user_ids email username).
Proof.
  pose proof (keeps_get_txn keyed_to). unfold select_user_ids.
  walk with keys.
Qed.

Lemma keyed_select_users_by_email email :
  keeps keyed_to (select_users_by_email email).
Proof.
  pose proof (keeps_get_txn keyed_to). unfold select_users_by_email.
  walk with keys.
Qed.

Lemma keyed_select_notes_of u : keeps keyed_to (select_notes_of u).
Proof.
  pose proof (keeps_get_txn keyed_to). unfold select_notes_of.
  walk with keys.
Qed.

Lemma keyed_select_note note_id u : keeps keyed_to (select_note note_id u).
Proof.
  pose proof (keeps_get_txn keyed_to). unfold select_note. walk with keys.
Qed.

Lemma keyed_select_tablenames names :
  keeps keyed_to (select_tablenames names).
Proof. unfold select_tablenames. walk with keys. Qed.

Lemma keyed_insert_user c username email password_hash :
  keeps keyed_to (insert_user c username email password_hash).
Proof.
  unfold insert_user, execute. peel 6 with keys.
  intros s Hs. unfold bind, nextval_users, get_txn.
  destruct s as [cm [tu tn] us ns oc fs se]. cbn in *.
  destruct (us <? serial_max); cbn; [|done].
  destruct a3 as [u|], a4 as [e|]; cbn; try done.
  by destruct (existsb _ tu).
Qed.

Lemma keyed_insert_note c title content u :
  keeps keyed_to (insert_note c title content u).
Proof.
  unfold insert_note, execute. peel 5 with keys.
  intros s [Hc Ht]. unfold bind, nextval_notes, get_txn.
  destruct s as [cm [tu tn] us ns oc fs se]. cbn in *.
  assert (ns ≤ ns + 1) as Hle by lia.
  destruct (ns <? serial_max); cbn; [|by split].
  destruct a2 as [ti|], a3 as [co|]; cbn;
    try (split; by apply (keyed_mono ns)).
  destruct (existsb _ tn); cbn; [split; by apply (keyed_mono ns)|].
  destruct (existsb _ tu); cbn; [|split; by apply (keyed_mono ns)].
  split; [by apply (keyed_mono ns)|by apply keyed_next].
Qed.

Lemma keyed_update_notes c title content note_id u :
  keeps keyed_to (update_notes c title content note_id u).
Proof.
  unfold update_notes, execute. peel 5 with keys.
  intros s [Hc Ht].
  unfold bind, get_txn, put_txn, ret, not_null_violation, raise.
  destruct s as [cm [tu tn] us ns oc fs se]. cbn in *.
  destruct (filter _ tn); [done|].
  destruct a2 as [ti|], a3 as [co|]; cbn; try done.
  split; [done|]. apply keyed_retitle; [|done].
  intros r. by destruct (targets note_id u r).
Qed.

Lemma keyed_delete_notes note_id u :
  keeps keyed_to (delete_notes note_id u).
Proof.
  unfold delete_notes, execute. peel 1 with keys.
  intros s [Hc Ht]. unfold bind, get_txn, put_txn, ret.
  destruct s as [cm [tu tn] us ns oc fs se]. cbn in *.
  split; [done|]. by apply keyed_filter.
Qed.

#[global] Hint Resolve keyed_select_user_ids keyed_select_users_by_email
  keyed_select_notes_of keyed_select_note keyed_select_tablenames
  keyed_insert_user keyed_insert_note keyed_update_notes
  keyed_delete_notes : keys.

(** Every handler keeps the primary key of [notes], on every request and
    under every backend script. *)
Theorem handlers_keep_keys
    (generate_password_hash : string → string → string)
    (check_password_hash : string → string → bool)
    (coerce_text : json → option string)
    (data : outcome json) (salt : string) (note_id : Z) :
  keeps keyed_to (register generate_password_hash coerce_text data salt) ∧
  keeps keyed_to (login check_password_hash data) ∧
  keeps keyed_to logout ∧
  keeps keyed_to (create_note coerce_text data) ∧
  keeps keyed_to get_notes ∧
  keeps keyed_to (update_note coerce_text note_id data) ∧
  keeps keyed_to (delete_note note_id) ∧
  keeps keyed_to (get_single_note note_id) ∧
  keeps keyed_to health ∧
  (∀ names, keeps keyed_to (list_tables names)).
Proof.
  unfold register, login, logout, create_note, get_notes, update_note,
    delete_note, get_single_note, health, list_tables.
  repeat apply conj;
    try match goal with |- ∀ _ : list string, _ => intros names end;
    walk with keys.
  match goal with x : (Z * string * string)%type |- _ =>
    destruct x as [[i title] content]
  end.
  walk with keys.
Qed.

Lemma store_keyed_notes_keyed s : store_keyed s → notes_keyed s.
Proof. by intros [Hc _]. Qed.

Lemma initial_state_keyed : store_keyed initial_state.
Proof.
  split; (split; [apply NoDup_nil_2|]);
    intros r Hr; destruct (proj1 (elem_of_nil r) Hr).
Qed.

(** ** C9: release of the connection, escape of backend exceptions *)

(** *** The steps other than [get_db] and [conn_close] open and close
    nothing *)

Ltac conns_cases :=
  intros s; unfold same_conns; unfold_ops;
  unfold adapt, adapt_str, bind_compared, bind_stored, lift;
  destruct s as [cm [tu tn] us ns oc [|[m|] f] se];
  cbn -[filter merge_sort]; split_matches; done.

Lemma conns_conn_commit : keeps same_conns conn_commit.
Proof. conns_cases. Qed.

Lemma conns_conn_rollback : keeps same_conns conn_rollback.
Proof. conns_cases. Qed.

Lemma conns_session_set k v : keeps same_conns (session_set k v).
Proof. conns_cases. Qed.

Lemma conns_session_clear : keeps same_conns session_clear.
Proof. conns_cases. Qed.

Lemma conns_select_user_ids email username :
  keeps same_conns (select_user_ids email username).
Proof. conns_cases. Qed.

Lemma conns_select_users_by_email email :
  keeps same_conns (select_users_by_email email).
Proof. conns_cases. Qed.

Lemma conns_select_notes_of u : keeps same_conns (select_notes_of u).
Proof. conns_cases. Qed.

Lemma conns_select_note note_id u : keeps same_conns (select_note note_id u).
Proof. conns_cases. Qed.

Lemma conns_insert_user c username email password_hash :
  keeps same_conns (insert_user c username email password_hash).
Proof. conns_cases. Qed.

Lemma conns_insert_note c title content u :
  keeps same_conns (insert_note c title content u).
Proof. conns_cases. Qed.

Lemma conns_update_notes c title content note_id u :
  keeps same_conns (update_notes c title content note_id u).
Proof.
  intros s. unfold same_conns, update_notes. unfold_ops.
  unfold adapt, adapt_str, bind_compared, bind_stored, lift.
  destruct s as [cm [tu tn] us ns oc [|[m|] f] se];
    cbn -[filter merge_sort]; split_matches; try done;
    destruct (filter _ tn); cbn; split_matches; done.
Qed.

Lemma conns_delete_notes note_id u :
  keeps same_conns (delete_notes note_id u).
Proof. conns_cases. Qed.

#[global] Hint Resolve conns_conn_commit conns_conn_rollback
  conns_session_set conns_session_clear conns_select_user_ids
  conns_select_users_by_email conns_select_notes_of conns_select_note
  conns_insert_user conns_insert_note conns_update_notes
  conns_delete_notes : conns.

(** *** [register] answers what its [try] block raises, unless the
    rollback raises *)

Lemma register_catches generate_password_hash coerce_text data salt s
    (k : nat) msg tl :
  (k ≤ 2)%nat →
  (register generate_password_hash coerce_text data salt
     (set_faults [] s)).1 = Ok registered →
  let run :=
    register generate_password_hash coerce_text data salt
      (set_faults (fails_after k msg tl) s) in
  run.1 = match tl with
          | Some msg' :: _ => Raise (Psycopg2Error msg')
          | _ => Ok (server_error msg)
          end ∧
  committed run.2 = committed s ∧
  open_conns run.2 = open_conns s.
Proof.
  intros Hk Hq.
  destruct (register_success _ _ _ _ _ _ Hq eq_refl)
    as (m & ju & je & pw & un & em & -> & Hu & He & Hp & Au & Ae & Hh & Hlt
        & Htk & Hex & _).
  pose proof (truthy_obj m _ _ Hu) as Htr.
  destruct s as [[cu cn] tx useq nseq oc fs se].
  unfold taken in Htk. cbn in Hlt, Htk, Hex. cbv zeta.
  unfold register, fails_after.
  destruct k as [|[|[|k]]]; [| | |lia];
    destruct tl as [|[msg'|] tl]; run; done.
Qed.

(** On a backend that does not fail, [register] answers every object body
    that has the three fields and a string password: whatever its [try]
    block raises (a value the driver or the backend refuses, a constraint,
    an exhausted sequence) ends in the 500 of the [except] clause. *)
Lemma register_always_answers generate_password_hash coerce_text salt s
    (m : gmap string json) ju je password :
  quiet s →
  m !! "username" = Some ju → m !! "email" = Some je →
  m !! "password" = Some (JStr password) →
  ∃ r, (register generate_password_hash coerce_text (Ok (JObj m)) salt s).1
         = Ok r ∧
       (r = registered ∨ r = user_already_exists ∨
        ∃ text, r = server_error text).
Proof.
  intros Hq Hu He Hp.
  pose proof (truthy_obj m _ _ Hu) as Htr.
  open_state s. unfold register. run.
  repeat (split_matches; cbn -[filter]).
  all: try (destruct (fetchone _); cbn -[filter];
            repeat (split_matches; cbn -[filter])).
  all: eexists; (split; [reflexivity|]).
  all: first [by left | by (right; left) | right; right; by eexists].
Qed.

(** *** The writers when their commit fails *)

Lemma update_note_success coerce_text note_id data s r :
  (update_note coerce_text note_id data s).1 = Ok r →
  status r = 200 →
  ∃ u (m : gmap string json) jt jc lt lc title content,
    logged_in_as u s ∧
    data = Ok (JObj m) ∧
    m !! "title" = Some jt ∧ m !! "content" = Some jc ∧
    adapt_lit jt = Ok lt ∧ store_text coerce_text lt = Ok (Some title) ∧
    adapt_lit jc = Ok lc ∧ store_text coerce_text lc = Ok (Some content) ∧
    hits note_id u (notes (committed s)) ≠ [].
Proof.
  unfold logged_in_as.
  destruct s as [[cu cn] tx useq nseq oc fs se].
  unfold update_note. unfold_ops. cbn -[filter].
  destruct (se !! "user_id") as [u|] eqn:Hu; cbn -[filter];
    [|intros [= <-] Hst; discriminate Hst].
  destruct data as [[| | | | |m]|e];
    crunch; try (intros Hr; discriminate Hr);
    try (intros [= <-] Hst; discriminate Hst).
  all: intros _ _.
  all: match goal with
       | Ht : ?m !! "title" = Some ?jt, Hc : ?m !! "content" = Some ?jc,
         At : adapt_lit ?jt = Ok ?lt, Ac : adapt_lit ?jc = Ok ?lc,
         St : store_text _ ?lt = Ok (Some ?ti),
         Sc : store_text _ ?lc = Ok (Some ?co) |- _ =>
           exists u, m, jt, jc, lt, lc, ti, co
       end.
  all: repeat (split; [done|]); unfold hits; cbn; congruence.
Qed.

Lemma delete_note_success note_id s r :
  (delete_note note_id s).1 = Ok r →
  status r = 200 →
  ∃ u, logged_in_as u s ∧ hits note_id u (notes (committed s)) ≠ [].
Proof.
  unfold logged_in_as.
  destruct s as [[cu cn] tx useq nseq oc fs se].
  unfold delete_note. unfold_ops. cbn -[filter].
  destruct (se !! "user_id") as [u|] eqn:Hu; cbn -[filter];
    [|intros [= <-] Hst; discriminate Hst].
  crunch; try (intros Hr; discriminate Hr);
    try (intros [= <-] Hst; discriminate Hst).
  all: intros _ _; exists u; split; [done|].
  all: match goal with
       | H : fetchone (map _ ?l) = Some _ |- _ =>
           unfold hits; cbn; intros E; rewrite E in H; discriminate H
       end.
Qed.

Lemma writers_lose_a_failed_commit coerce_text note_id data s msg tl :
  ((create_note coerce_text data (set_faults [] s)).1 = Ok note_created →
   let run := create_note coerce_text data
                (set_faults (fails_after 1 msg tl) s) in
   run.1 = Raise (Psycopg2Error msg) ∧ committed run.2 = committed s) ∧
  ((update_note coerce_text note_id data (set_faults [] s)).1
     = Ok note_updated →
   let run := update_note coerce_text note_id data
                (set_faults (fails_after 1 msg tl) s) in
   run.1 = Raise (Psycopg2Error msg) ∧ committed run.2 = committed s) ∧
  ((delete_note note_id (set_faults [] s)).1 = Ok note_deleted →
   let run := delete_note note_id (set_faults (fails_after 1 msg tl) s) in
   run.1 = Raise (Psycopg2Error msg) ∧ committed run.2 = committed s).
Proof.
  unfold fails_after. split; [|split].
  - intros Hq.
    destruct (create_note_success _ _ _ _ Hq eq_refl)
      as (u & m & jt & jc & lt & lc & ti & co & Hl & -> & Ht & Hc & At & St
          & Ac & Sc & Hmax & Hid & Hex & _).
    unfold logged_in_as in Hl.
    destruct s as [[cu cn] tx useq nseq oc fs se]. cbn in Hl, Hmax, Hid, Hex.
    unfold create_note. run. done.
  - intros Hq.
    destruct (update_note_success _ _ _ _ _ Hq eq_refl)
      as (u & m & jt & jc & lt & lc & ti & co & Hl & -> & Ht & Hc & At & St
          & Ac & Sc & Hh).
    unfold logged_in_as in Hl.
    destruct s as [[cu cn] tx useq nseq oc fs se]. cbn in Hl, Hh.
    unfold update_note. run. fold (hits note_id u cn).
    destruct (hits note_id u cn); done.
  - intros Hq.
    destruct (delete_note_success _ _ _ Hq eq_refl) as (u & Hl & Hh).
    unfold logged_in_as in Hl.
    destruct s as [[cu cn] tx useq nseq oc fs se]. cbn in Hl, Hh.
    unfold delete_note. run. fold (hits note_id u cn).
    destruct (hits note_id u cn); done.
Qed.

(** *** The handler without [try] *)

(** When the statement of [GET /list-tables] fails, the exception leaves the
    handler before [conn.close()] is reached: the connection stays open. *)
Lemma list_tables_leaks_on_failure (names : list string) (s : state)
    (msg : string) (rest : list (option string)) :
  faults s = None :: Some msg :: rest →
  (list_tables names s).1 = Raise (Psycopg2Error msg) ∧
  open_conns (list_tables names s).2 = S (open_conns s).
Proof. intros Hf. open_state s. unfold list_tables. run. done. Qed.




(** ** The scenario of the specification, run on the empty store *)

Example scenario_alice :
  let s0 := initial_state in
  let r1 := register plain_hash no_coercion
              (Ok (JObj {[ "username" := JStr "alice";
                           "email" := JStr "a@x.com";
                           "password" := JStr "pw1" ]})) "salt" s0 in
  let r2 := login plain_check
              (Ok (JObj {[ "email" := JStr "a@x.com";
                           "password" := JStr "pw1" ]})) r1.2 in
  let r3 := create_note no_coercion
              (Ok (JObj {[ "title" := JStr "T1";
                           "content" := JStr "C1" ]})) r2.2 in
  let r4 := get_notes r3.2 in
  let r5 := get_notes (set_session ∅ r3.2) in
  r1.1 = Ok registered ∧
  r2.1 = Ok logged_in ∧
  r3.1 = Ok note_created ∧
  r4.1 = Ok (mkResponse 200 (JArr [note_object (mkNote 1 "T1" "C1" 1)])) ∧
  r5.1 = Ok (mkResponse 200 (JArr [])) ∧
  open_conns r4.2 = 0%nat.
Proof. vm_compute. repeat split. Qed.

(** * Further properties of the handlers *)

(** ** Handlers that only read *)

#[global] Instance same_store_preorder : PreOrder same_store.
Proof.
  split; unfold same_store; [intros s|intros s1 s2 s3]; intuition congruence.
Qed.

Ltac store_cases :=
  intros s; unfold same_store; unfold_ops;
  unfold adapt, adapt_str, bind_compared, bind_stored, lift;
  destruct s as [cm [tu tn] us ns oc [|[m|] f] se];
  cbn -[filter merge_sort]; split_matches; done.

Lemma reads_backend_call : keeps same_store backend_call.
Proof. store_cases. Qed.

Lemma reads_get_db : keeps same_store get_db.
Proof. store_cases. Qed.

Lemma reads_conn_rollback : keeps same_store conn_rollback.
Proof. store_cases. Qed.

Lemma reads_conn_close : keeps same_store conn_close.
Proof. store_cases. Qed.

Lemma reads_session_set k v : keeps same_store (session_set k v).
Proof. store_cases. Qed.

Lemma reads_session_clear : keeps same_store session_clear.
Proof. store_cases. Qed.

Lemma reads_select_users_by_email email :
  keeps same_store (select_users_by_email email).
Proof. store_cases. Qed.

Lemma reads_select_notes_of u : keeps same_store (select_notes_of u).
Proof. store_cases. Qed.

Lemma reads_select_note note_id u : keeps same_store (select_note note_id u).
Proof. store_cases. Qed.

Lemma reads_select_tablenames names :
  keeps same_store (select_tablenames names).
Proof. store_cases. Qed.

Create HintDb reads.
#[global] Hint Resolve keeps_ret keeps_raise keeps_lift
  keeps_session_contains keeps_session_get keeps_subscript keeps_contains
  keeps_all_in keeps_encode keeps_adapt keeps_adapt_str keeps_bind_compared
  keeps_bind_stored
  same_store_preorder reads_backend_call reads_get_db reads_conn_rollback
  reads_conn_close reads_session_set reads_session_clear
  reads_select_users_by_email reads_select_notes_of reads_select_note
  reads_select_tablenames : reads.

(** X1.  [login], [logout], [get_notes], [get_single_note], [health] and
    [list_tables] never write: whatever the request and whatever the backend
    does, the committed tables and the two sequences are what they were. *)
Theorem read_only_handlers_keep_store
    (check_password_hash : string → string → bool)
    (data : outcome json) (note_id : Z) (names : list string) (s : state) :
  same_store s (login check_password_hash data s).2 ∧
  same_store s (logout s).2 ∧
  same_store s (get_notes s).2 ∧
  same_store s (get_single_note note_id s).2 ∧
  same_store s (health s).2 ∧
  same_store s (list_tables names s).2.
Proof.
  assert (keeps same_store (login check_password_hash data) ∧
          keeps same_store logout ∧ keeps same_store get_notes ∧
          keeps same_store (get_single_note note_id) ∧
          keeps same_store health ∧ keeps same_store (list_tables names))
    as (H1 & H2 & H3 & H4 & H5 & H6).
  { unfold login, logout, get_notes, get_single_note, health, list_tables.
    repeat apply conj; walk with reads.
    match goal with x : (Z * string * string)%type |- _ =>
      destruct x as [[i ti] co]
    end.
    walk with reads. }
  exact (conj (H1 s) (conj (H2 s) (conj (H3 s)
           (conj (H4 s) (conj (H5 s) (H6 s)))))).
Qed.

(** ** The constraints of the schema are invariants of the server *)

#[global] Instance users_to_preorder : PreOrder users_to.
Proof. split; unfold users_to; [intros s|intros s1 s2 s3]; tauto. Qed.

#[global] Instance owners_to_preorder : PreOrder owners_to.
Proof. split; unfold owners_to; [intros s|intros s1 s2 s3]; tauto. Qed.

Lemma NoDup_map_snoc {A B} (f : A → B) (l : list A) (new : A) :
  NoDup (map f l) → (∀ r, r ∈ l → f r ≠ f new) →
  NoDup (map f (l ++ [new])).
Proof.
  intros Hnd Hne. rewrite map_app. apply NoDup_app. split; [done|]. split.
  - intros i Hi Hnew. cbn in Hnew. apply list_elem_of_singleton in Hnew.
    apply list_elem_of_In, in_map_iff in Hi as (z & Ez & Hz).
    apply list_elem_of_In in Hz. apply (Hne z Hz). congruence.
  - cbn. apply NoDup_singleton.
Qed.

Lemma users_keyed_mono n m l : n ≤ m → users_keyed n l → users_keyed m l.
Proof.
  intros Hnm (H1 & H2 & H3 & Hle). repeat split; try done.
  intros r Hr. specialize (Hle r Hr). lia.
Qed.

Lemma existsb_false_inv {A} (f : A → bool) (l : list A) x :
  existsb f l = false → x ∈ l → f x = false.
Proof.
  intros He Hx. destruct (f x) eqn:E; [|done].
  by rewrite (existsb_true f l x Hx E) in He.
Qed.

(** The row the INSERT of [register] adds passes the three constraints. *)
Lemma users_keyed_next n l username email password_hash :
  users_keyed n l →
  existsb (λ r, (u_id r =? n + 1) || String.eqb (u_username r) username
                || String.eqb (u_email r) email) l = false →
  users_keyed (n + 1) (l ++ [mkUser (n + 1) username email password_hash]).
Proof.
  intros (Hi & Hu & He & Hle) Hfresh.
  assert (∀ r, r ∈ l → u_id r ≠ n + 1 ∧ u_username r ≠ username ∧
                        u_email r ≠ email) as Hne.
  { intros r Hr. pose proof (existsb_false_inv _ _ r Hfresh Hr) as E.
    cbn in E. rewrite !orb_false_iff in E. destruct E as [[E1 E2] E3].
    apply Z.eqb_neq in E1. apply String.eqb_neq in E2, E3. done. }
  repeat split.
  - apply NoDup_map_snoc; [done|]. intros r Hr. by apply Hne.
  - apply NoDup_map_snoc; [done|]. intros r Hr. by apply Hne.
  - apply NoDup_map_snoc; [done|]. intros r Hr. by apply Hne.
  - intros r Hr. apply elem_of_app in Hr as [Hr|Hr].
    + specialize (Hle r Hr). lia.
    + apply list_elem_of_singleton in Hr as ->. cbn. lia.
Qed.

(** Steps that leave the users, or the notes and users, where they are. *)
Ltac inv_cases R I :=
  intros s; unfold R, I; unfold_ops;
  unfold adapt, adapt_str, bind_compared, bind_stored, lift;
  destruct s as [cm [tu tn] us ns oc [|[m|] f] se];
  cbn -[filter merge_sort]; intros Hs; split_matches;
  solve [exact Hs | destruct Hs; by split].

Lemma users_backend_call : keeps users_to backend_call.
Proof. inv_cases users_to users_sound. Qed.

Lemma users_get_db : keeps users_to get_db.
Proof. inv_cases users_to users_sound. Qed.

Lemma users_conn_commit : keeps users_to conn_commit.
Proof. inv_cases users_to users_sound. Qed.

Lemma users_conn_rollback : keeps users_to conn_rollback.
Proof. inv_cases users_to users_sound. Qed.

Lemma users_conn_close : keeps users_to conn_close.
Proof. inv_cases users_to users_sound. Qed.

Lemma users_session_set k v : keeps users_to (session_set k v).
Proof. inv_cases users_to users_sound. Qed.

Lemma users_session_clear : keeps users_to session_clear.
Proof. inv_cases users_to users_sound. Qed.

Lemma users_select_user_ids email username :
  keeps users_to (select_user_ids email username).
Proof. inv_cases users_to users_sound. Qed.

Lemma users_select_users_by_email email :
  keeps users_to (select_users_by_email email).
Proof. inv_cases users_to users_sound. Qed.

Lemma users_select_notes_of u : keeps users_to (select_notes_of u).
Proof. inv_cases users_to users_sound. Qed.

Lemma users_select_note note_id u : keeps users_to (select_note note_id u).
Proof. inv_cases users_to users_sound. Qed.

Lemma users_select_tablenames names :
  keeps users_to (select_tablenames names).
Proof. inv_cases users_to users_sound. Qed.

Lemma users_delete_notes note_id u : keeps users_to (delete_notes note_id u).
Proof. inv_cases users_to users_sound. Qed.

Lemma users_update_notes c title content note_id u :
  keeps users_to (update_notes c title content note_id u).
Proof.
  intros s. unfold users_to, users_sound, update_notes. unfold_ops.
  unfold adapt, adapt_str, bind_compared, bind_stored, lift.
  destruct s as [cm [tu tn] us ns oc [|[m|] f] se];
    cbn -[filter merge_sort]; intros Hs; split_matches; try exact Hs;
    destruct (filter _ tn); cbn; split_matches; exact Hs.
Qed.

Create HintDb users.
#[global] Hint Resolve keeps_ret keeps_raise keeps_lift
  keeps_session_contains keeps_session_get keeps_subscript keeps_contains
  keeps_all_in keeps_encode keeps_adapt keeps_adapt_str keeps_bind_compared
  keeps_bind_stored
  users_to_preorder users_backend_call users_get_db users_conn_commit
  users_conn_rollback users_conn_close users_session_set
  users_session_clear users_select_user_ids users_select_users_by_email
  users_select_notes_of users_select_note users_select_tablenames
  users_delete_notes users_update_notes : users.

Lemma users_insert_user c username email password_hash :
  keeps users_to (insert_user c username email password_hash).
Proof.
  unfold insert_user, execute. peel 6 with users.
  intros s [Hc Ht]. unfold bind, nextval_users, get_txn.
  destruct s as [cm [tu tn] us ns oc fs se]. cbn in *.
  assert (us ≤ us + 1) as Hle by lia.
  destruct (us <? serial_max); cbn; [|by split].
  destruct a3 as [u|], a4 as [e|]; cbn;
    try (split; by apply (users_keyed_mono us)).
  destruct (existsb _ tu) eqn:E; cbn;
    [split; by apply (users_keyed_mono us)|].
  split; [by apply (users_keyed_mono us)|by apply users_keyed_next].
Qed.

Lemma users_insert_note c title content u :
  keeps users_to (insert_note c title content u).
Proof.
  unfold insert_note, execute. peel 5 with users.
  intros s Hs. unfold bind, nextval_notes, get_txn.
  destruct s as [cm [tu tn] us ns oc fs se]. cbn in *.
  destruct (ns <? serial_max); cbn; [|exact Hs].
  destruct a2 as [ti|], a3 as [co|]; cbn; try exact Hs.
  destruct (existsb _ tn); cbn; [exact Hs|].
  destruct (existsb _ tu); cbn; exact Hs.
Qed.

#[global] Hint Resolve users_insert_user users_insert_note : users.

Lemma owners_exist_more_users us ns new :
  owners_exist (mkTables us ns) → owners_exist (mkTables (us ++ [new]) ns).
Proof.
  intros Ho r Hr. destruct (Ho r Hr) as (w & Hw & E).
  exists w. split; [|done]. cbn in *. apply elem_of_app. by left.
Qed.

Lemma owners_exist_new_note us ns i title content u :
  owners_exist (mkTables us ns) →
  existsb (λ r, u_id r =? u) us = true →
  owners_exist (mkTables us (ns ++ [mkNote i title content u])).
Proof.
  intros Ho Hu r Hr. cbn in Hr. apply elem_of_app in Hr as [Hr|Hr].
  - by apply Ho.
  - apply list_elem_of_singleton in Hr as ->. cbn.
    apply existsb_exists in Hu as (w & Hw & E).
    exists w. split; [by apply list_elem_of_In|by apply Z.eqb_eq].
Qed.

Lemma owners_exist_retitle us ns (f : Note → Note) :
  (∀ r, n_user_id (f r) = n_user_id r) →
  owners_exist (mkTables us ns) → owners_exist (mkTables us (map f ns)).
Proof.
  intros Hf Ho r Hr. cbn in Hr.
  apply list_elem_of_In, in_map_iff in Hr as (z & <- & Hz).
  rewrite Hf. by apply Ho, list_elem_of_In.
Qed.

Lemma owners_exist_filter us ns (P : Note → Prop) `{∀ r, Decision (P r)} :
  owners_exist (mkTables us ns) → owners_exist (mkTables us (filter P ns)).
Proof.
  intros Ho r Hr. cbn in Hr. apply list_elem_of_filter in Hr as [_ Hr].
  by apply Ho.
Qed.

Lemma owners_backend_call : keeps owners_to backend_call.
Proof. inv_cases owners_to owners_sound. Qed.

Lemma owners_get_db : keeps owners_to get_db.
Proof. inv_cases owners_to owners_sound. Qed.

Lemma owners_conn_commit : keeps owners_to conn_commit.
Proof. inv_cases owners_to owners_sound. Qed.

Lemma owners_conn_rollback : keeps owners_to conn_rollback.
Proof. inv_cases owners_to owners_sound. Qed.

Lemma owners_conn_close : keeps owners_to conn_close.
Proof. inv_cases owners_to owners_sound. Qed.

Lemma owners_session_set k v : keeps owners_to (session_set k v).
Proof. inv_cases owners_to owners_sound. Qed.

Lemma owners_session_clear : keeps owners_to session_clear.
Proof. inv_cases owners_to owners_sound. Qed.

Lemma owners_select_user_ids email username :
  keeps owners_to (select_user_ids email username).
Proof. inv_cases owners_to owners_sound. Qed.

Lemma owners_select_users_by_email email :
  keeps owners_to (select_users_by_email email).
Proof. inv_cases owners_to owners_sound. Qed.

Lemma owners_select_notes_of u : keeps owners_to (select_notes_of u).
Proof. inv_cases owners_to owners_sound. Qed.

Lemma owners_select_note note_id u :
  keeps owners_to (select_note note_id u).
Proof. inv_cases owners_to owners_sound. Qed.

Lemma owners_select_tablenames names :
  keeps owners_to (select_tablenames names).
Proof. inv_cases owners_to owners_sound. Qed.

Create HintDb owners.
#[global] Hint Resolve keeps_ret keeps_raise keeps_lift
  keeps_session_contains keeps_session_get keeps_subscript keeps_contains
  keeps_all_in keeps_encode keeps_adapt keeps_adapt_str keeps_bind_compared
  keeps_bind_stored
  owners_to_preorder owners_backend_call owners_get_db owners_conn_commit
  owners_conn_rollback owners_conn_close owners_session_set
  owners_session_clear owners_select_user_ids owners_select_users_by_email
  owners_select_notes_of owners_select_note owners_select_tablenames
  : owners.

Lemma owners_insert_user c username email password_hash :
  keeps owners_to (insert_user c username email password_hash).
Proof.
  unfold insert_user, execute. peel 6 with owners.
  intros s [Hc Ht]. unfold bind, nextval_users, get_txn.
  destruct s as [cm [tu tn] us ns oc fs se]. cbn in *.
  destruct (us <? serial_max); cbn; [|by split].
  destruct a3 as [u|], a4 as [e|]; cbn; try by split.
  destruct (existsb _ tu); cbn; [by split|].
  split; [done|by apply owners_exist_more_users].
Qed.

Lemma owners_insert_note c title content u :
  keeps owners_to (insert_note c title content u).
Proof.
  unfold insert_note, execute. peel 5 with owners.
  intros s [Hc Ht]. unfold bind, nextval_notes, get_txn.
  destruct s as [cm [tu tn] us ns oc fs se]. cbn in *.
  destruct (ns <? serial_max); cbn; [|by split].
  destruct a2 as [ti|], a3 as [co|]; cbn; try by split.
  destruct (existsb _ tn); cbn; [by split|].
  destruct (existsb _ tu) eqn:E; cbn; [|by split].
  split; [done|by apply owners_exist_new_note].
Qed.

Lemma owners_update_notes c title content note_id u :
  keeps owners_to (update_notes c title content note_id u).
Proof.
  unfold update_notes, execute. peel 5 with owners.
  intros s [Hc Ht].
  unfold bind, get_txn, put_txn, ret, not_null_violation, raise.
  destruct s as [cm [tu tn] us ns oc fs se]. cbn in *.
  destruct (filter _ tn); [by split|].
  destruct a2 as [ti|], a3 as [co|]; cbn; try by split.
  split; [done|]. apply owners_exist_retitle; [|done].
  intros r. by destruct (targets note_id u r).
Qed.

Lemma owners_delete_notes note_id u :
  keeps owners_to (delete_notes note_id u).
Proof.
  unfold delete_notes, execute. peel 1 with owners.
  intros s [Hc Ht]. unfold bind, get_txn, put_txn, ret.
  destruct s as [cm [tu tn] us ns oc fs se]. cbn in *.
  split; [done|]. by apply owners_exist_filter.
Qed.

#[global] Hint Resolve owners_insert_user owners_insert_note
  owners_update_notes owners_delete_notes : owners.

(** Every view function keeps the three families of constraints. *)
Lemma dispatch_keeps generate_password_hash check_password_hash coerce_text r :
  keeps keyed_to
    (dispatch generate_password_hash check_password_hash coerce_text r) ∧
  keeps users_to
    (dispatch generate_password_hash check_password_hash coerce_text r) ∧
  keeps owners_to
    (dispatch generate_password_hash check_password_hash coerce_text r).
Proof.
  split; [|split].
  - destruct r; cbn;
      unfold register, login, logout, create_note, get_notes, update_note,
        delete_note, get_single_note, health, list_tables;
      walk with keys;
      match goal with x : (Z * string * string)%type |- _ =>
        destruct x as [[i ti] co]
      end; walk with keys.
  - destruct r; cbn;
      unfold register, login, logout, create_note, get_notes, update_note,
        delete_note, get_single_note, health, list_tables;
      walk with users;
      match goal with x : (Z * string * string)%type |- _ =>
        destruct x as [[i ti] co]
      end; walk with users.
  - destruct r; cbn;
      unfold register, login, logout, create_note, get_notes, update_note,
        delete_note, get_single_note, health, list_tables;
      walk with owners;
      match goal with x : (Z * string * string)%type |- _ =>
        destruct x as [[i ti] co]
      end; walk with owners.
Qed.

(** X2.  In every state the server can reach -- any sequence of requests,
    any bodies, any session cookies, any backend failures -- the stored
    tables satisfy the schema: note identifiers are distinct, user
    identifiers, usernames and emails are distinct, identifiers were drawn
    from their sequences, and every note belongs to a stored user. *)
Theorem reachable_store_is_sound
    (generate_password_hash : string → string → string)
    (check_password_hash : string → string → bool)
    (coerce_text : json → option string) (s : state) :
  reachable generate_password_hash check_password_hash coerce_text s →
  notes_keyed s ∧
  users_keyed (users_id_seq s) (users (committed s)) ∧
  owners_exist (committed s).
Proof.
  intros Hr.
  assert (store_keyed s ∧ users_sound s ∧ owners_sound s)
    as ((Hk & _) & (Hu & _) & (Ho & _)); [|done].
  induction Hr as [|s r sess script Hr (Hk & Hu & Ho)].
  - repeat split; try apply NoDup_nil_2;
      intros r Hr; destruct (proj1 (elem_of_nil r) Hr).
  - destruct (dispatch_keeps generate_password_hash check_password_hash
                coerce_text r) as (Kk & Ku & Ko).
    split; [|split].
    + apply Kk. by destruct s.
    + apply Ku. by destruct s.
    + apply Ko. by destruct s.
Qed.

Lemma reachable_store_is_sound_witness :
  let reg : gmap string json :=
    {[ "username" := JStr "carol"; "email" := JStr "c@x.com";
       "password" := JStr "pw3" ]} in
  let s :=
    (dispatch plain_hash plain_check no_coercion
       (PostRegister (Ok (JObj reg)) "salt")
       (set_session ∅ (set_faults [] initial_state))).2 in
  notes_keyed s ∧
  users_keyed (users_id_seq s) (users (committed s)) ∧
  owners_exist (committed s).
Proof.
  intros reg s.
  apply (reachable_store_is_sound plain_hash plain_check no_coercion).
  exact (reachable_served plain_hash plain_check no_coercion initial_state
           (PostRegister (Ok (JObj reg)) "salt") ∅ []
           (reachable_initial plain_hash plain_check no_coercion)).
Defined.

(** ** A write is committed whole or not at all *)

(** X3.  Whatever the request, the session and the backend do: unless
    [register], [create_note], [update_note] or [delete_note] returns its
    success response, the committed tables are what they were. *)
Theorem writes_are_all_or_nothing
    (generate_password_hash : string → string → string)
    (coerce_text : json → option string)
    (data : outcome json) (salt : string) (note_id : Z) (s : state) :
  ((register generate_password_hash coerce_text data salt s).1
     = Ok registered ∨
   committed (register generate_password_hash coerce_text data salt s).2
     = committed s) ∧
  ((create_note coerce_text data s).1 = Ok note_created ∨
   committed (create_note coerce_text data s).2 = committed s) ∧
  ((update_note coerce_text note_id data s).1 = Ok note_updated ∨
   committed (update_note coerce_text note_id data s).2 = committed s) ∧
  ((delete_note note_id s).1 = Ok note_deleted ∨
   committed (delete_note note_id s).2 = committed s).
Proof.
  destruct s as [[cu cn] tx useq nseq oc fs se].
  unfold register, create_note, update_note, delete_note.
  repeat apply conj; crunch; first [by right | by left].
Qed.

(** ** A request touches the notes of its caller only *)

Lemma others_snoc u l i title content :
  others u (l ++ [mkNote i title content u]) = others u l.
Proof.
  unfold others. rewrite filter_app, filter_cons_False, filter_nil.
  - apply app_nil_r.
  - cbn. tauto.
Qed.

Lemma others_retitle u note_id title content l :
  others u (map (λ r, if targets note_id u r
                      then mkNote (n_id r) title content (n_user_id r)
                      else r) l) = others u l.
Proof.
  unfold others. induction l as [|a l IH]; [done|]. cbn [map].
  destruct (targets note_id u a) eqn:E.
  - apply targets_spec in E as [_ Eu].
    rewrite !filter_cons_False by (cbn; tauto). exact IH.
  - destruct (decide (n_user_id a = u)).
    + rewrite !filter_cons_False by tauto. exact IH.
    + rewrite !filter_cons_True by done. by rewrite IH.
Qed.

Lemma others_misses u note_id l :
  others u (filter (λ r, targets note_id u r = false) l) = others u l.
Proof.
  unfold others. induction l as [|a l IH]; [done|].
  destruct (targets note_id u a) eqn:E.
  - rewrite (filter_cons_False (λ r, targets note_id u r = false))
      by congruence.
    apply targets_spec in E as [_ Eu].
    rewrite filter_cons_False by tauto. exact IH.
  - rewrite (filter_cons_True (λ r, targets note_id u r = false)) by done.
    destruct (decide (n_user_id a = u)).
    + rewrite !filter_cons_False by tauto. exact IH.
    + rewrite !filter_cons_True by done. by rewrite IH.
Qed.

(** X4.  A note request made with the session of [u] -- create, update or
    delete, with any body, against any backend script -- leaves every note
    of every other owner, and the table of users, exactly as they were. *)
Theorem other_owners_notes_untouched
    (coerce_text : json → option string) (data : outcome json)
    (note_id : Z) (s : state) (u : Z) :
  logged_in_as u s →
  let after_create := (create_note coerce_text data s).2 in
  let after_update := (update_note coerce_text note_id data s).2 in
  let after_delete := (delete_note note_id s).2 in
  others u (notes (committed after_create)) = others u (notes (committed s)) ∧
  users (committed after_create) = users (committed s) ∧
  others u (notes (committed after_update)) = others u (notes (committed s)) ∧
  users (committed after_update) = users (committed s) ∧
  others u (notes (committed after_delete)) = others u (notes (committed s)) ∧
  users (committed after_delete) = users (committed s).
Proof.
  intros Hl. unfold logged_in_as in Hl.
  destruct s as [[cu cn] tx useq nseq oc fs se]. cbn in Hl.
  unfold create_note, update_note, delete_note. cbv zeta.
  repeat apply conj; crunch;
    first [ reflexivity | apply others_snoc | apply others_retitle
          | apply others_misses ].
Qed.

Lemma other_owners_notes_untouched_witness :
  let s := sample_state {[ "user_id" := 1 ]} in
  others 1 (notes (committed (delete_note 3 s).2))
    = others 1 (notes (committed s)) ∧
  users (committed (delete_note 3 s).2) = users (committed s).
Proof.
  intros s.
  assert (logged_in_as 1 s) as Hl by (vm_compute; reflexivity).
  destruct (other_owners_notes_untouched no_coercion (Ok JNull) 3 s 1 Hl)
    as (_ & _ & _ & _ & H5 & H6).
  split; [exact H5|exact H6].
Defined.

(** ** Round trips of the note handlers *)

Lemma targets_retitle note_id u title content r :
  targets note_id u (retitle note_id u title content r) = targets note_id u r.
Proof. unfold retitle. by destruct (targets note_id u r) eqn:E. Qed.

Lemma hits_retitle note_id u title content l :
  hits note_id u (map (retitle note_id u title content) l) =
  map (λ _, mkNote note_id title content u) (hits note_id u l).
Proof.
  unfold hits. induction l as [|a l IH]; [done|]. cbn [map].
  destruct (targets note_id u a) eqn:E.
  - rewrite !filter_cons_True by (by rewrite ?targets_retitle).
    cbn [map]. rewrite IH. f_equal. unfold retitle. rewrite E.
    apply targets_spec in E as [-> ->]. done.
  - rewrite !filter_cons_False by (rewrite ?targets_retitle; congruence).
    exact IH.
Qed.

Lemma update_note_hit_run coerce_text s u note_id
    (data : gmap string json) title content :
  quiet s → logged_in_as u s →
  data !! "title" = Some (JStr title) → plain title →
  data !! "content" = Some (JStr content) → plain content →
  hits note_id u (notes (committed s)) ≠ [] →
  update_note coerce_text note_id (Ok (JObj data)) s =
    let t := set_notes
               (map (retitle note_id u title content) (notes (committed s)))
               (committed s) in
    (Ok note_updated, set_txn t (set_committed t s)).
Proof.
  intros Hq Hl Ht Hpt Hc Hpc Hh. open_state s. unfold update_note. run.
  fold (hits note_id u cn). destruct (hits note_id u cn); [done|].
  cbn. done.
Qed.



Lemma hits_fresh note_id u (l : list Note) (new : Note) :
  (∀ r, r ∈ l → n_id r ≠ note_id) →
  n_id new = note_id → n_user_id new = u →
  hits note_id u (l ++ [new]) = [new].
Proof.
  intros Hl Hi Hu. unfold hits.
  rewrite filter_app, filter_cons_True, filter_nil
    by (by apply targets_spec).
  rewrite filter_none; [done|].
  intros r Hr Ht. apply targets_spec in Ht as [Ht _]. by apply (Hl r Hr).
Qed.



(** X7.  When the caller owns the note, DELETE answers 200 "deleted" and
    removes the rows with that identifier and that owner, nothing else:
    every other row stays, no row appears, and on a store that satisfies the
    primary key exactly one row is gone. *)
Theorem delete_removes_only_target (s : state) (u note_id : Z) :
  quiet s → logged_in_as u s → owns u note_id s → notes_keyed s →
  let del := delete_note note_id s in
  del.1 = Ok note_deleted ∧
  (∀ r, r ∈ notes (committed del.2) ↔
        r ∈ notes (committed s) ∧ ¬ (n_id r = note_id ∧ n_user_id r = u)) ∧
  S (List.length (notes (committed del.2)))
    = List.length (notes (committed s)) ∧
  users (committed del.2) = users (committed s).
Proof.
  intros Hq Hl Ho [Hnd _] del. unfold del.
  rewrite (delete_note_run s u note_id Hq Hl).
  destruct (hits note_id u (notes (committed s))) as [|r0 l0] eqn:E.
  { by apply hits_nil_not_owns in E. }
  cbv zeta. cbn [fst snd]. set (t := set_notes _ _).
  assert (notes (committed (set_txn t (set_committed t s))) =
          misses note_id u (notes (committed s))) as En by (by destruct s).
  rewrite En. repeat apply conj.
  - done.
  - intros r. unfold misses. rewrite list_elem_of_filter, targets_false.
    tauto.
  - clear En t. revert E Hnd. unfold hits, misses.
    generalize (notes (committed s)). intros l. revert r0 l0.
    induction l as [|a l IH]; intros r0 l0 E Hnd; [done|].
    cbn in Hnd. apply NoDup_cons in Hnd as [Hna Hnd].
    destruct (targets note_id u a) eqn:Ea.
    + rewrite (filter_cons_False (λ r, targets note_id u r = false))
        by congruence.
      rewrite filter_all; [done|].
      intros r Hr. apply targets_false. intros [Hi _].
      apply targets_spec in Ea as [Ea _]. apply Hna. rewrite Ea, <- Hi.
      apply list_elem_of_In, in_map, list_elem_of_In, Hr.
    + rewrite (filter_cons_True (λ r, targets note_id u r = false)) by done.
      rewrite filter_cons_False in E by congruence.
      cbn. f_equal. by apply (IH r0 l0).
  - by destruct s as [[? ?] ? ? ? ? ? ?].
Qed.

Lemma delete_removes_only_target_witness :
  let s := sample_state {[ "user_id" := 1 ]} in
  (delete_note 2 s).1 = Ok note_deleted ∧
  S (List.length (notes (committed (delete_note 2 s).2)))
    = List.length (notes (committed s)).
Proof.
  intros s.
  assert (owns 1 2 s) as Ho.
  { exists (mkNote 2 "T2" "C2" 1). split; [right; left|done]. }
  assert (notes_keyed s) as Hk.
  { split.
    - cbn. repeat (apply NoDup_cons; split;
                   [rewrite ?elem_of_cons, elem_of_nil; lia|]).
      apply NoDup_nil_2.
    - intros r Hr. cbn in Hr.
      repeat (apply elem_of_cons in Hr as [->|Hr]; [cbn; lia|]).
      destruct (proj1 (elem_of_nil r) Hr). }
  destruct (delete_removes_only_target s 1 2 eq_refl eq_refl Ho Hk)
    as (H1 & _ & H3 & _).
  split; [exact H1|exact H3].
Defined.

(** ** The listing and the single read agree *)

Lemma note_json_inj i t c i' t' c' :
  note_json i t c = note_json i' t' c' → i = i' ∧ t = t' ∧ c = c'.
Proof.
  unfold note_json. intros E.
  assert (∀ k, ({[ "id" := JNum i; "title" := JStr t;
                   "content" := JStr c ]} : gmap string json) !! k =
               ({[ "id" := JNum i'; "title" := JStr t';
                   "content" := JStr c' ]} : gmap string json) !! k) as Hk
    by (intros k;
        exact (f_equal (λ j, match j with JObj m => m !! k | _ => None end)
                       E)).
  pose proof (Hk "id") as H1. pose proof (Hk "title") as H2.
  pose proof (Hk "content") as H3.
  rewrite !lookup_insert_eq in H1.
  rewrite !(lookup_insert_ne _ "id" "title"), !lookup_insert_eq in H2 by done.
  rewrite !(lookup_insert_ne _ "id" "content"),
    !(lookup_insert_ne _ "title" "content"), !lookup_singleton_eq in H3
    by done.
  by simplify_eq.
Qed.

Lemma hits_elem note_id u l r :
  r ∈ hits note_id u l ↔ r ∈ l ∧ n_id r = note_id ∧ n_user_id r = u.
Proof. unfold hits. rewrite list_elem_of_filter, targets_spec. tauto. Qed.

(** X8.  On a store that satisfies the primary key, GET /notes/<id> returns
    a note with some title and content exactly when GET /notes lists that
    identifier with that title and content. *)
Theorem listing_agrees_with_get (s : state) (u i : Z) (title content : string) :
  quiet s → logged_in_as u s → notes_keyed s →
  (get_single_note i s).1 = Ok (mkResponse 200 (note_json i title content)) ↔
  ∃ rows, (get_notes s).1 = Ok (mkResponse 200 (JArr rows)) ∧
          note_json i title content ∈ rows.
Proof.
  intros Hq Hl [Hnd _].
  rewrite (get_single_note_run s u i Hq Hl), (get_notes_run s u Hq Hl).
  cbn [fst]. set (l := notes (committed s)) in *.
  split.
  - intros E. eexists. split; [reflexivity|].
    destruct (hits i u l) as [|r l0] eqn:Eh; [discriminate|].
    apply (f_equal (λ o, match o with Ok r => body r | _ => JNull end))
      in E.
    cbn in E. apply note_json_inj in E as (Ei & Et & Ec).
    assert (r ∈ hits i u l) as Hr by (rewrite Eh; left).
    apply hits_elem in Hr as (Hr & _ & Hu).
    apply list_elem_of_In, in_map_iff. exists r.
    split; [unfold note_row; congruence|].
    apply list_elem_of_In, owned_desc_elem. done.
  - intros (rows & E & Hin).
    apply (f_equal (λ o, match o with
                         | Ok r => match body r with JArr l => l | _ => [] end
                         | _ => []
                         end)) in E.
    cbn in E. subst rows.
    apply list_elem_of_In, in_map_iff in Hin as (r & Er & Hr).
    apply list_elem_of_In, owned_desc_elem in Hr as [Hr Hu].
    apply note_json_inj in Er as (Ei & Et & Ec).
    destruct (hits i u l) as [|r' l0] eqn:Eh.
    { assert (r ∈ hits i u l) as Hr' by (by apply hits_elem).
      rewrite Eh in Hr'. destruct (proj1 (elem_of_nil r) Hr'). }
    assert (r' ∈ hits i u l) as Hr' by (rewrite Eh; left).
    apply hits_elem in Hr' as (Hr' & Hi' & _).
    assert (r' = r) as -> by (apply (keyed_inj l); congruence).
    unfold jsonify. congruence.
Qed.

Lemma listing_agrees_with_get_witness :
  let s := sample_state {[ "user_id" := 1 ]} in
  ∃ rows, (get_notes s).1 = Ok (mkResponse 200 (JArr rows)) ∧
          note_json 2 "T2" "C2" ∈ rows.
Proof.
  intros s.
  assert (notes_keyed s) as Hk.
  { split.
    - cbn. repeat (apply NoDup_cons; split;
                   [rewrite ?elem_of_cons, elem_of_nil; lia|]).
      apply NoDup_nil_2.
    - intros r Hr. cbn in Hr.
      repeat (apply elem_of_cons in Hr as [->|Hr]; [cbn; lia|]).
      destruct (proj1 (elem_of_nil r) Hr). }
  apply (listing_agrees_with_get s 1 2 "T2" "C2" eq_refl eq_refl Hk).
  vm_compute. reflexivity.
Defined.

(** ** From registration to the first note *)



(** ** Login *)



(** ** Registration *)



(** ** Login and logout *)

(** X12.  A login that does not answer "logged in" leaves the session as it
    was: a failed attempt does not log the caller out, whatever the body and
    the backend do. *)
Theorem failed_login_keeps_session
    (check_password_hash : string → string → bool)
    (data : outcome json) (s : state) :
  (login check_password_hash data s).1 ≠ Ok logged_in →
  session (login check_password_hash data s).2 = session s.
Proof.
  destruct s as [[cu cn] tx useq nseq oc fs se].
  destruct data as [v|e]; [|reflexivity].
  unfold login. unfold_ops; cbn -[filter].
  destruct (truthy v); cbn -[filter]; [|reflexivity].
  crunch; try reflexivity.
  all: match goal with
       | |- context [negb (?c ?a ?b)] => destruct (c a b); cbn
       end; [intros H; by destruct H|reflexivity].
Qed.

Lemma failed_login_keeps_session_witness :
  let cred : gmap string json :=
    {[ "email" := JStr "a@x.com"; "password" := JStr "wrong" ]} in
  session (login plain_check (Ok (JObj cred))
             (sample_state {[ "user_id" := 2 ]})).2
    = session (sample_state {[ "user_id" := 2 ]}).
Proof.
  intros cred.
  apply (failed_login_keeps_session plain_check (Ok (JObj cred))
           (sample_state {[ "user_id" := 2 ]})).
  vm_compute. discriminate.
Defined.

(** X13.  A login whose body is empty, null, or an object without [email] or
    without [password] is answered 400 "Invalid input" before any connection
    is opened: the state is left as it was. *)
Theorem login_rejects_incomplete_body
    (check_password_hash : string → string → bool) (v : json) (s : state) :
  truthy v = false ∨
    (∃ (m : gmap string json) k,
       v = JObj m ∧ k ∈ ["email"; "password"] ∧ m !! k = None) →
  login check_password_hash (Ok v) s = (Ok invalid_input, s) ∧
  status invalid_input = 400.
Proof.
  intros H. split; [|reflexivity].
  unfold login, lift, bind at 1 2.
  destruct H as [->|(m & k & -> & Hk & Hm)]; [reflexivity|].
  destruct (truthy (JObj m)); [|reflexivity].
  unfold contains, bind, ret. cbn.
  destruct (m !! "email") eqn:He; cbn; [|reflexivity].
  destruct (m !! "password") eqn:Hp; cbn; [|reflexivity].
  repeat (apply elem_of_cons in Hk as [->|Hk]; [congruence|]).
  by apply elem_of_nil in Hk.
Qed.

Lemma login_rejects_incomplete_body_witness :
  login plain_check (Ok (JObj {[ "email" := JStr "a@x.com" ]}))
    (sample_state ∅)
  = (Ok invalid_input, sample_state ∅).
Proof.
  refine (proj1 (login_rejects_incomplete_body plain_check _
                   (sample_state ∅) _)).
  right. exists {[ "email" := JStr "a@x.com" ]}, "password".
  split; [reflexivity|]. split; [right; left|reflexivity].
Defined.

(** X14.  [logout] empties the session and touches nothing else; once it
    has run, the listing is empty, the four other note handlers answer 401,
    and a second [logout] changes nothing. *)
Theorem logout_ends_the_session (coerce_text : json → option string)
    (data : outcome json) (note_id : Z) (s : state) :
  let s' := (logout s).2 in
  (logout s).1 = Ok (jsonify (message "logged out")) ∧
  session s' = ∅ ∧
  committed s' = committed s ∧ txn s' = txn s ∧
  open_conns s' = open_conns s ∧ faults s' = faults s ∧
  logout s' = (Ok (jsonify (message "logged out")), s') ∧
  get_notes s' = (Ok (jsonify (JArr [])), s') ∧
  create_note coerce_text data s' = (Ok unauthorized, s') ∧
  update_note coerce_text note_id data s' = (Ok unauthorized, s') ∧
  delete_note note_id s' = (Ok unauthorized, s') ∧
  get_single_note note_id s' = (Ok unauthorized, s').
Proof.
  destruct s as [[cu cn] tx useq nseq oc fs se].
  cbn. repeat split.
Qed.

(** ** The table listing *)

(** X15.  [GET /list-tables] leaves a connection open exactly when the
    connection was made and the statement then failed; it answers exactly
    when neither the connection nor the statement fails, and its answer is
    then 200 with the rows of the catalog in the order the server returned
    them, each as a one-element array.  Whatever tables the catalog holds. *)
Theorem list_tables_leaks_iff (names : list string) (s : state) :
  (open_conns (list_tables names s).2 = S (open_conns s) ↔
     ∃ msg rest, faults s = None :: Some msg :: rest) ∧
  (open_conns (list_tables names s).2 ≠ S (open_conns s) →
     open_conns (list_tables names s).2 = open_conns s) ∧
  ((∃ r, (list_tables names s).1 = Ok r) ↔
     ¬ (∃ msg rest, faults s = Some msg :: rest) ∧
     ¬ (∃ msg rest, faults s = None :: Some msg :: rest)) ∧
  (∀ r, (list_tables names s).1 = Ok r →
     r = mkResponse 200 (JArr (map (λ t, JArr [JStr t]) names))).
Proof.
  destruct s as [[cu cn] tx useq nseq oc fs se].
  unfold list_tables. unfold_ops.
  destruct fs as [|[msg|] rest];
    [| |destruct rest as [|[msg'|] rest]]; cbn.
  all: split;
    [split; [first [lia | by eauto]
            |first [reflexivity | intros (? & ? & [=])]]|].
  all: split; [first [reflexivity | intros H; by destruct H]|].
  all: split; [|first [intros r [= <-]; reflexivity | intros r [=]]].
  all: split.
  all: try by intros (? & [=]).
  all: try by (intros _; split; intros (? & ? & [=])).
  all: try by (intros _; eauto).
  all: intros [Ha Hb]; exfalso;
    first [by (apply Ha; eauto) | by (apply Hb; eauto)].
Qed.

(** ** What an answer tells about the store *)

Lemma filter_cons_elem {A} (P : A → Prop) `{∀ x, Decision (P x)}
    (l : list A) x l' :
  filter P l = x :: l' → x ∈ l ∧ P x.
Proof.
  intros E. assert (x ∈ filter P l) as Hx by (rewrite E; left).
  apply list_elem_of_filter in Hx. tauto.
Qed.

Lemma fetchone_map_filter {A B} (f : A → B) (P : A → Prop)
    `{∀ x, Decision (P x)} (l : list A) b :
  fetchone (map f (filter P l)) = Some b →
  ∃ x, x ∈ l ∧ P x ∧ f x = b.
Proof.
  destruct (filter P l) as [|x l'] eqn:E; [discriminate|].
  cbn. intros [= <-]. exists x.
  destruct (filter_cons_elem P l x l' E). done.
Qed.

(** X16.  [update_note] answers "updated" and [delete_note] answers
    "deleted" only when the request carries a session and the user of that
    session owns a note with the identifier of the route.  Whatever the body
    and the backend do. *)
Theorem mutation_requires_ownership (coerce_text : json → option string)
    (data : outcome json) (note_id : Z) (s : state) :
  (update_note coerce_text note_id data s).1 = Ok note_updated ∨
  (delete_note note_id s).1 = Ok note_deleted →
  ∃ u, logged_in_as u s ∧ owns u note_id s.
Proof.
  unfold logged_in_as, owns.
  destruct s as [[cu cn] tx useq nseq oc fs se].
  intros [H|H]; revert H; unfold update_note, delete_note;
    crunch; try (intros H; discriminate H).
  all: intros _; exists z; split; [done|].
  all: match goal with
       | H : filter _ _ = ?n :: _ |- _ =>
           apply filter_cons_elem in H as [Hin Ht]; exists n
       | H : fetchone (map _ (filter _ _)) = Some _ |- _ =>
           apply fetchone_map_filter in H as (n & Hin & Ht & _); exists n
       end.
  all: apply targets_spec in Ht; tauto.
Qed.

Lemma mutation_requires_ownership_witness :
  ∃ u, logged_in_as u (sample_state {[ "user_id" := 1 ]}) ∧
       owns u 2 (sample_state {[ "user_id" := 1 ]}).
Proof.
  apply (mutation_requires_ownership no_coercion (Ok JNull) 2).
  right. vm_compute. reflexivity.
Defined.

(** X17.  The two reading handlers disclose only notes of the caller:
    every entry of a listing, and the note [get_single_note] returns, is the
    JSON form of a stored note that belongs to the user of the session, and
    the single note has the identifier of the route.  Whatever the backend
    does. *)
Theorem reads_disclose_only_own_notes (note_id : Z) (s : state) :
  (∀ rows j,
     (get_notes s).1 = Ok (jsonify (JArr rows)) → j ∈ rows →
     ∃ u row, logged_in_as u s ∧ row ∈ notes (committed s) ∧
              n_user_id row = u ∧ j = note_row row) ∧
  (∀ i title content,
     (get_single_note note_id s).1 = Ok (jsonify (note_json i title content)) →
     ∃ u row, logged_in_as u s ∧ row ∈ notes (committed s) ∧
              n_user_id row = u ∧ n_id row = note_id ∧
              note_json i title content = note_row row).
Proof.
  unfold logged_in_as.
  destruct s as [[cu cn] tx useq nseq oc fs se].
  split.
  - intros rows j. unfold get_notes. crunch;
      try (intros H; discriminate H).
    all: intros E Hj;
      apply (f_equal (λ o, match o with
                           | Ok r => match body r with JArr l => l | _ => [] end
                           | Raise _ => []
                           end)) in E; cbn in E; subst rows.
    4: by apply elem_of_nil in Hj.
    all: apply list_elem_of_fmap in Hj as (row & -> & Hrow).
    all: apply (owned_desc_elem z cn row) in Hrow as [Hin Hown].
    all: by exists z, row.
  - intros i title content. unfold get_single_note. crunch;
      try (intros H; discriminate H).
    all: intros E;
      apply (f_equal (λ o, match o with
                           | Ok r => body r
                           | Raise _ => JNull
                           end)) in E; cbn in E.
    all: match goal with
         | H : fetchone (map _ (filter _ _)) = Some _ |- _ =>
             apply fetchone_map_filter in H as (row & Hin & Ht & Hrow)
         end.
    all: apply targets_spec in Ht as [Hid Hown].
    all: injection Hrow as <- <- <-.
    all: by exists z, row.
Qed.

(** X18.  [create_note] answers 201 only when the request carries the
    session of a stored user and the body is an object with [title] and
    [content]; exactly one note is then committed, with the next identifier
    of the sequence and that user as owner (a title or content that is a
    string is stored as it is), and no user row changes.  Whatever the body
    and the backend do. *)
Theorem create_note_is_sound (coerce_text : json → option string)
    (data : outcome json) (s : state) (r : response) :
  (create_note coerce_text data s).1 = Ok r →
  status r = 201 →
  ∃ u (m : gmap string json) row,
    logged_in_as u s ∧ user_exists u s ∧
    data = Ok (JObj m) ∧
    is_Some (m !! "title") ∧ is_Some (m !! "content") ∧
    n_id row = notes_id_seq s + 1 ∧ n_user_id row = u ∧
    (∀ title, m !! "title" = Some (JStr title) → n_title row = title) ∧
    (∀ content,
       m !! "content" = Some (JStr content) → n_content row = content) ∧
    committed (create_note coerce_text data s).2
      = mkTables (users (committed s)) (notes (committed s) ++ [row]).
Proof.
  intros Hr H201.
  destruct (create_note_success _ _ _ _ Hr H201)
    as (u & m & jt & jc & lt & lc & ti & co & Hu & E & Ht & Hc & At & St
        & Ac & Sc & _ & _ & Hex & Hst).
  exists u, m, (mkNote (notes_id_seq s + 1) ti co u).
  split; [done|]. split.
  { apply existsb_exists in Hex as (w & Hw & Ew).
    apply list_elem_of_In in Hw. apply Z.eqb_eq in Ew. by exists w. }
  split; [done|]. split; [by eexists|]. split; [by eexists|].
  split; [reflexivity|]. split; [reflexivity|].
  split.
  { intros title Et. rewrite Ht in Et. injection Et as ->.
    assert (lt = LText title) as ->.
    { unfold adapt_lit in At. cbn in At.
      destruct (has_nul title); [discriminate|]. by injection At as <-. }
    by apply store_text_text in St. }
  split.
  { intros content Ec. rewrite Hc in Ec. injection Ec as ->.
    assert (lc = LText content) as ->.
    { unfold adapt_lit in Ac. cbn in Ac.
      destruct (has_nul content); [discriminate|]. by injection Ac as <-. }
    by apply store_text_text in Sc. }
  rewrite Hst. by destruct s as [[cu cn] tx useq nseq oc fs se].
Qed.

Lemma create_note_is_sound_witness :
  let s := sample_state {[ "user_id" := 2 ]} in
  let note : gmap string json :=
    {[ "title" := JStr "T"; "content" := JStr "C" ]} in
  ∃ u (m : gmap string json) row,
    logged_in_as u s ∧ user_exists u s ∧
    Ok (JObj note) = Ok (JObj m) ∧
    is_Some (m !! "title") ∧ is_Some (m !! "content") ∧
    n_id row = notes_id_seq s + 1 ∧ n_user_id row = u ∧
    (∀ title, m !! "title" = Some (JStr title) → n_title row = title) ∧
    (∀ content,
       m !! "content" = Some (JStr content) → n_content row = content) ∧
    committed (create_note no_coercion (Ok (JObj note)) s).2
      = mkTables (users (committed s)) (notes (committed s) ++ [row]).
Proof.
  intros s note.
  apply (create_note_is_sound no_coercion (Ok (JObj note)) s note_created).
  - vm_compute; reflexivity.
  - reflexivity.
Defined.
